(** * OpenPNM: phases, series-resistor conductance and mixture diffusivity

    A shallow embedding of
      - [OpenPNM/Phases/__GenericPhase__.py]              (module [GenericPhase]),
      - [OpenPNM/Physics/models/electrical_conductance.py] (module [electrical_conductance]),
      - [openpnm/models/phases/mixtures.py]               (module [mixtures]),
    together with the properties of these functions that the design
    document of the package states.

    Conventions.
      - A Python dict with string keys is a [gmap string _]; an ordered
        dict is an association list.
      - A method that mutates its object is a function from the state of
        the objects it touches to an [outcome] and the new state.
      - NumPy float64 values are the type [float] below: exact rationals
        extended with [+inf], [-inf] and [nan].  Rounding and the sign of
        zero are not modelled, with one exception: the product
        [0.5 * diameter] of the conductance calculator, which is a
        divisor, underflows as in binary64 ([fmul_underflow]). *)

From Stdlib Require Import QArith Qcanon Qround Lqa Ascii Sorted.
From stdpp Require Import gmap strings list fin_maps numbers.

Set Warnings "-register-all".
Local Open Scope string_scope.
Local Open Scope list_scope.

(** ** Outcomes of a call *)

(** The error kinds of the design document (section 7), followed by the
    exceptions that Python and NumPy raise themselves. *)
Inductive error :=
  | NotFound | DimensionMismatch | OwnershipConflict | MissingInput
  | DuplicateMembership
  | IndexError | ValueError | TypeError.

Inductive outcome (A : Type) :=
  | Returned (a : A)
  | Raised (e : error).
Arguments Returned {A} a.
Arguments Raised {A} e.

(** A computation over a mutable state [S]: it returns or raises, and in
    both cases leaves a state behind. *)
Definition M (S A : Type) : Type := S → outcome A * S.

Definition ret {S A} (a : A) : M S A := λ s, (Returned a, s).
Definition bind {S A B} (m : M S A) (k : A → M S B) : M S B :=
  λ s, match m s with
       | (Returned a, s') => k a s'
       | (Raised e, s') => (Raised e, s')
       end.
Definition lift {S A} (o : outcome A) : M S A := λ s, (o, s).
Definition get_state {S} : M S S := λ s, (Returned s, s).

Notation "'do' x <- m ; k" := (bind m (λ x, k))
  (at level 10, x name, m at level 100, k at level 200).
Notation "'do' ' p <- m ; k" := (bind m (λ x, match x with p => k end))
  (at level 10, p pattern, m at level 100, k at level 200).

(** ** Floating-point values *)

Inductive float :=
  | Fin (q : Qc)
  | PInf
  | NInf
  | NaN.

Global Instance float_eq_dec : EqDecision float.
Proof. solve_decision. Defined.

Definition fneg (x : float) : float :=
  match x with
  | Fin q => Fin (- q)%Qc
  | PInf => NInf
  | NInf => PInf
  | NaN => NaN
  end.

Definition fadd (x y : float) : float :=
  match x, y with
  | NaN, _ | _, NaN => NaN
  | Fin a, Fin b => Fin (a + b)%Qc
  | PInf, NInf | NInf, PInf => NaN
  | PInf, _ | _, PInf => PInf
  | NInf, _ | _, NInf => NInf
  end.

Definition fsub (x y : float) : float := fadd x (fneg y).

(** Sign-aware product of an infinity with a finite factor. *)
Definition inf_times (pos : bool) (q : Qc) : float :=
  if decide (q = 0%Qc) then NaN
  else if decide (0 < q)%Qc then (if pos then PInf else NInf)
  else (if pos then NInf else PInf).

Definition fmul (x y : float) : float :=
  match x, y with
  | NaN, _ | _, NaN => NaN
  | Fin a, Fin b => Fin (a * b)%Qc
  | PInf, Fin q | Fin q, PInf => inf_times true q
  | NInf, Fin q | Fin q, NInf => inf_times false q
  | PInf, PInf | NInf, NInf => PInf
  | PInf, NInf | NInf, PInf => NInf
  end.

(** Array division in NumPy does not raise on a zero divisor: it yields
    an infinity, or [nan] for [0/0]. *)
Definition fdiv (x y : float) : float :=
  match x, y with
  | NaN, _ | _, NaN => NaN
  | Fin a, Fin b =>
      if decide (b = 0%Qc) then
        (if decide (a = 0%Qc) then NaN
         else if decide (0 < a)%Qc then PInf else NInf)
      else Fin (a / b)%Qc
  | Fin _, (PInf | NInf) => Fin 0%Qc
  | PInf, Fin b => if decide (b < 0)%Qc then NInf else PInf
  | NInf, Fin b => if decide (b < 0)%Qc then PInf else NInf
  | (PInf | NInf), (PInf | NInf) => NaN
  end.

(** [x <= y] and [x > y]; every comparison with [nan] is false. *)
Definition fle (x y : float) : bool :=
  match x, y with
  | NaN, _ | _, NaN => false
  | Fin a, Fin b => bool_decide (a ≤ b)%Qc
  | NInf, _ | _, PInf => true
  | _, _ => false
  end.

Definition fgt (x y : float) : bool :=
  match x, y with
  | NaN, _ | _, NaN => false
  | Fin a, Fin b => bool_decide (b < a)%Qc
  | PInf, PInf | NInf, NInf => false
  | PInf, _ | _, NInf => true
  | _, _ => false
  end.

(** [x == y]; [nan] equals nothing. *)
Definition feq (x y : float) : bool :=
  match x, y with
  | Fin a, Fin b => bool_decide (a = b)
  | PInf, PInf | NInf, NInf => true
  | _, _ => false
  end.

Definition f0 : float := Fin 0%Qc.
Definition f1 : float := Fin 1%Qc.
Definition fhalf : float := Fin (Q2Qc (1 # 2)).

(** [x ** (-1)] *)
Definition finv (x : float) : float := fdiv f1 x.

(** *** Underflow *)

(** The least positive number of binary64, [2^-1074] (printed
    [5e-324]), and the least normal one, [2^-1022]. *)
Definition least_positive : Qc := Q2Qc (1 # (2 ^ 1074)).
Definition least_normal : Qc := Q2Qc (1 # (2 ^ 1022)).

(** The integer nearest to [x], the even one of two equally near. *)
Definition nearest_even (x : Q) : Z :=
  let n := Qfloor x in
  match (x - inject_Z n ?= 1 # 2)%Q with
  | Lt => n
  | Gt => (n + 1)%Z
  | Eq => if Z.even n then n else (n + 1)%Z
  end.

(** A result below the least normal number in magnitude is stored as
    the nearest multiple of [2^-1074]; half of [2^-1074] becomes zero.
    A result in the normal range is kept as it is. *)
Definition underflow (q : Qc) : Qc :=
  if decide (- least_normal < q)%Qc then
    if decide (q < least_normal)%Qc
    then (Q2Qc (inject_Z (nearest_even (q / least_positive)%Qc)) * least_positive)%Qc
    else q
  else q.

(** [x * y] with the underflow of the product. *)
Definition fmul_underflow (x y : float) : float :=
  match fmul x y with
  | Fin q => Fin (underflow q)
  | r => r
  end.

(** ** Arrays and property stores *)

Inductive ndarray :=
  | AFloat (l : list float)
  | ABool (l : list bool)
  | AConns (l : list (nat * nat)).

Global Instance ndarray_eq_dec : EqDecision ndarray.
Proof. solve_decision. Defined.

(** A value on the right of [obj[key] = value]. *)
Inductive pyvalue :=
  | VFloat (x : float)
  | VBool (b : bool)
  | VArray (a : ndarray).

Abbreviation store := (gmap string ndarray).

Definition as_floats (a : ndarray) : outcome (list float) :=
  match a with AFloat l => Returned l | _ => Raised TypeError end.

Definition as_conns (a : ndarray) : outcome (list (nat * nat)) :=
  match a with AConns l => Returned l | _ => Raised TypeError end.

(** [a[idx]] with an index array: a fresh array, [IndexError] when an
    index is out of range. *)
Fixpoint take {A} (a : list A) (idx : list nat) : outcome (list A) :=
  match idx with
  | [] => Returned []
  | i :: idx' =>
      match a !! i with
      | None => Raised IndexError
      | Some x =>
          match take a idx' with
          | Returned r => Returned (x :: r)
          | Raised e => Raised e
          end
      end
  end.

(** An element-wise binary operation; NumPy stretches a one-element
    operand and raises on any other disagreement of lengths. *)
Definition elementwise (f : float → float → float) (a b : list float)
  : outcome (list float) :=
  if decide (length a = length b) then Returned (zip_with f a b)
  else match a, b with
       | [x], _ => Returned (map (f x) b)
       | _, [y] => Returned (map (λ x, f x y) a)
       | _, _ => Raised ValueError
       end.

(** [c * a] and [c / a] for a scalar [c]. *)
Definition scalar_mul (c : float) (a : list float) : list float := map (fmul c) a.
Definition scalar_mul_underflow (c : float) (a : list float) : list float :=
  map (fmul_underflow c) a.
Definition scalar_rdiv (c : float) (a : list float) : list float := map (fdiv c) a.

Definition ndarray_length (a : ndarray) : nat :=
  match a with
  | AFloat l => length l
  | ABool l => length l
  | AConns l => length l
  end.

(** ** Objects *)

Inductive level := Debug | Warning | Error.

(** A registered model: the dotted path of the function and the keyword
    arguments bound at registration.  An argument that is an object
    ([mixture=self]) is recorded by the object's name. *)
Record model := Model {
  fn : string;
  kwargs : list (string * string) }.

Global Instance model_eq_dec : EqDecision model.
Proof. solve_decision. Defined.

(** A physics object: its own property store and the pores and throats
    of the phase it is responsible for. *)
Record physics := Physics {
  phys_name : string;
  phys_data : store;
  phys_pores : list nat;
  phys_throats : list nat }.

(** A phase object.  [data] is the dict the object is; [_models] is its
    ordered dict of models; [_phases] holds the component objects and
    [_physics] the physics objects; [_log] is what its logger received. *)
Inductive phase := Phase {
  name : string;
  data : store;
  _models : list (string * model);
  _phases : list phase;
  _physics : list physics;
  _log : list (level * string) }.

(** The network object: its property store and its list [_phases] of
    registered phases, by name. *)
Record network := Network {
  net_data : store;
  net_phases : list string }.

Definition set_data (d : store) (p : phase) : phase :=
  Phase (name p) d (_models p) (_phases p) (_physics p) (_log p).
Definition set_models (ms : list (string * model)) (p : phase) : phase :=
  Phase (name p) (data p) ms (_phases p) (_physics p) (_log p).
Definition set_phases (ps : list phase) (p : phase) : phase :=
  Phase (name p) (data p) (_models p) ps (_physics p) (_log p).
Definition logger (lv : level) (msg : string) (p : phase) : phase :=
  Phase (name p) (data p) (_models p) (_phases p) (_physics p)
        (_log p ++ [(lv, msg)]).

(** ** The base class *)

Module Core.

(** The methods of [OpenPNM.Base.Core] that the phase class calls.  The
    class is not among the sources; each definition follows the design
    document. *)

(** Modelled from the spec: the element count of the domain a key
    belongs to ([Core._count], absent), "pore" keys over the nodes and
    "throat" keys over the edges (section 3, PropertyStore). *)
Definition _count (Np Nt : nat) (key : string) : option nat :=
  if String.prefix "pore." key then Some Np
  else if String.prefix "throat." key then Some Nt
  else None.

(** Modelled from the spec: [Core.__setitem__] (absent), the
    PropertyStore [set] of section 4.1.  It validates the length of the
    array against the element count of the key's domain and fails with
    DimensionMismatch otherwise; every stored value is an array of that
    length (section 2), so a scalar is stored as the constant array. *)
Definition __setitem__ (Np Nt : nat) (key : string) (value : pyvalue)
  : M store unit := λ d,
  match _count Np Nt key with
  | None => (Raised DimensionMismatch, d)
  | Some n =>
      match value with
      | VFloat x => (Returned tt, <[key := AFloat (replicate n x)]> d)
      | VBool b => (Returned tt, <[key := ABool (replicate n b)]> d)
      | VArray a =>
          if decide (ndarray_length a = n)
          then (Returned tt, <[key := a]> d)
          else (Raised DimensionMismatch, d)
      end
  end.

(** Modelled from the spec: [Core.__getitem__] (absent), the
    PropertyStore [get] of section 4.1: the stored array if present,
    else NotFound. *)
Definition __getitem__ (key : string) : M store ndarray := λ d,
  match d !! key with
  | Some a => (Returned a, d)
  | None => (Raised NotFound, d)
  end.

(** Modelled from the spec: the copy of the values of one source into
    its index positions (section 4.2); [Core._interleave_data] is
    absent.  [vals] are written at the positions [idx] of [arr]. *)
Fixpoint scatter (arr : list float) (idx : list nat) (vals : list float)
  : outcome (list float) :=
  match idx, vals with
  | [], [] => Returned arr
  | i :: idx', v :: vals' =>
      if decide (i < length arr) then scatter (<[i := v]> arr) idx' vals'
      else Raised IndexError
  | _, _ => Raised ValueError
  end.

(** Modelled from the spec: the element subset that a physics object
    owns in the domain of [key] (section 3). *)
Definition locations (key : string) (s : physics) : list nat :=
  if String.prefix "pore." key then phys_pores s else phys_throats s.

(** Modelled from the spec: the enumeration of the sources by the
    resolver (section 4.2), [found] telling whether one of them owned
    the key. *)
Fixpoint interleave (key : string) (sources : list physics)
    (acc : list float) (found : bool) : outcome ndarray :=
  match sources with
  | [] => if found then Returned (AFloat acc) else Raised NotFound
  | s :: rest =>
      match phys_data s !! key with
      | None => interleave key rest acc found
      | Some (AFloat vals) =>
          match scatter acc (locations key s) vals with
          | Returned acc' => interleave key rest acc' true
          | Raised e => Raised e
          end
      | Some _ => Raised TypeError
      end
  end.

(** Modelled from the spec: [Core._interleave_data] (absent), the
    resolver of section 4.2.  It enumerates the sources; each one that
    owns [key] has its values copied to its own index positions of a
    newly allocated full-length array, [nan] where no source covers.
    The result is returned and written nowhere.  NotFound when no source
    owns the key (section 7). *)
Definition _interleave_data (Np Nt : nat) (key : string)
    (sources : list physics) : outcome ndarray :=
  match _count Np Nt key with
  | None => Raised NotFound
  | Some n => interleave key sources (replicate n NaN) false
  end.

(** Assignment [d[k] = v] on an ordered dict: an existing key keeps its
    position. *)
Fixpoint dict_set {V} (d : list (string * V)) (k : string) (v : V)
  : list (string * V) :=
  match d with
  | [] => [(k, v)]
  | (k', v') :: d' =>
      if decide (k' = k) then (k, v) :: d' else (k', v') :: dict_set d' k v
  end.

Fixpoint dict_get {V} (d : list (string * V)) (k : string) : option V :=
  match d with
  | [] => None
  | (k', v') :: d' => if decide (k' = k) then Some v' else dict_get d' k
  end.


(** Modelled from the spec: [Core.add_model] (absent), section 4.3: the
    entry is appended at the next ordinal position, or replaces in place
    the entry its target key already has. *)
Definition add_model (propname : string) (m : model)
    (ms : list (string * model)) : list (string * model) :=
  dict_set ms propname m.

(** Modelled from the spec: the order that the position map of
    [reorder] specifies (section 4.3), lower ordinals first.  Insertion
    of a key into a position map sorted by ordinal. *)
Fixpoint insert_by_ordinal (kn : string * nat) (l : list (string * nat))
  : list (string * nat) :=
  match l with
  | [] => [kn]
  | kn' :: l' =>
      if decide (kn.2 < kn'.2) then kn :: l
      else kn' :: insert_by_ordinal kn l'
  end.

(** Modelled from the spec: the position map of [reorder] sorted by
    ordinal (section 4.3). *)
Definition by_ordinal (new_order : list (string * nat)) : list (string * nat) :=
  foldr insert_by_ordinal [] new_order.

(** The entries of [ms] for the keys [ks], in the order of [ks]. *)
Fixpoint entries_of {V} (ms : list (string * V)) (ks : list string)
  : list (string * V) :=
  match ks with
  | [] => []
  | k :: ks' =>
      match dict_get ms k with
      | Some v => (k, v) :: entries_of ms ks'
      | None => entries_of ms ks'
      end
  end.

(** Modelled from the spec: [Core.reorder_models] (absent), the
    [reorder] of section 4.3: the entries named in the position map are
    moved to the front, in the order of their ordinals, and all other
    entries follow in their former relative order. *)
Definition reorder_models (new_order : list (string * nat))
    (ms : list (string * model)) : list (string * model) :=
  let ks := (by_ordinal new_order).*1 in
  entries_of ms ks ++ filter (λ kv, kv.1 ∉ ks) ms.

(** Modelled from the spec: the keyword arguments of [Core.regenerate]
    (absent), section 4.3: the target keys, if any, and whether the
    mode is the forced one. *)
Record regen_args := RegenArgs {
  targets : option (list string);
  force : bool }.

(** Modelled from the spec: an entry is regenerated when its target key
    is among the targets, or when no targets are given (section 4.3). *)
Definition selected (kw : regen_args) (propname : string) : bool :=
  match targets kw with
  | None => true
  | Some ts => bool_decide (propname ∈ ts)
  end.

(** One invocation of a model: the owner and the target key. *)
Definition event : Type := string * string.

Section Regeneration.

(** [St] is the state of the property stores of all objects, as the
    model functions read and write them.  The functions themselves are
    not among the sources: [run_model owner propname m] is the
    invocation of [m] with its result written to [owner[propname]],
    [None] when the function raises for a missing input;
    [current owner propname] tells whether the output is already
    present with the right length. *)
Context {St : Type}.
Variable run_model : string → string → model → St → option St.
Variable current : string → string → St → bool.

(** Modelled from the spec: [Core.regenerate] (absent), section 4.3:
    the entries are visited in ordinal order; an entry is invoked when
    its target is among the targets (or no targets are given), except
    that the normal mode skips an entry whose output is current; a
    function that raises aborts the regeneration of the object.  The
    state carries the trace of the invocations. *)
Fixpoint regenerate (owner : string) (ms : list (string * model))
    (kw : regen_args) : M (St * list event) unit :=
  match ms with
  | [] => ret tt
  | (propname, m) :: ms' => λ '(st, tr),
      if selected kw propname && (force kw || negb (current owner propname st))
      then match run_model owner propname m st with
           | Some st' => regenerate owner ms' kw (st', tr ++ [(owner, propname)])
           | None => (Raised MissingInput, (st, tr ++ [(owner, propname)]))
           end
      else regenerate owner ms' kw (st, tr)
  end.

End Regeneration.

End Core.

(** ** [OpenPNM/Phases/__GenericPhase__.py] *)

Module GenericPhase.

(** Element counts of a network, from its masks ['pore.all'] and
    ['throat.all']. *)
Definition count_all (d : store) (key : string) : nat :=
  match d !! key with
  | Some a => ndarray_length a
  | None => 0
  end.
Definition Np (net : network) : nat := count_all (net_data net) "pore.all".
Definition Nt (net : network) : nat := count_all (net_data net) "throat.all".

(** Modelled from the spec: [network[key]] and [network[key] = value]
    ([GenericNetwork] is absent): the network answers the same
    key-based contract as a property store (section 6). *)
Definition net_getitem (key : string) : M network ndarray := λ net,
  let '(r, d) := Core.__getitem__ key (net_data net) in
  (r, Network d (net_phases net)).
Definition net_setitem (key : string) (value : pyvalue) : M network unit := λ net,
  let '(r, d) := Core.__setitem__ (Np net) (Nt net) key value (net_data net) in
  (r, Network d (net_phases net)).

(** The loop of [__setitem__]: is [prop] among the keys of one of the
    physics objects? *)
Fixpoint defined_in_physics (prop : string) (l : list physics) : bool :=
  match l with
  | [] => false
  | phys :: l' =>
      if decide (is_Some (phys_data phys !! prop)) then true
      else defined_in_physics prop l'
  end.

(** [self[prop] = value].  [net] is [self._net]. *)
Definition __setitem__ (net : network) (prop : string) (value : pyvalue)
  : M phase unit := λ self,
  if defined_in_physics prop (_physics self) then
    (Returned tt,
     logger Error
       (prop +:+ " is already defined in at least one associated Physics object")
       self)
  else
    let '(r, d) := Core.__setitem__ (Np net) (Nt net) prop value (data self) in
    (r, set_data d self).

(** [self[key]] *)
Definition __getitem__ (net : network) (key : string) : M phase ndarray := λ self,
  if decide (is_Some (data self !! key)) then
    let '(r, d) := Core.__getitem__ key (data self) in
    (r, set_data d self)
  else
    let self' :=
      logger Debug (key +:+ " not on Phase, constructing data from Physics") self in
    (Core._interleave_data (Np net) (Nt net) key (_physics self'), self').

Definition temperature_model (mixture : string) : model :=
  Model "OpenPNM.Phases.models.mixture_props.temperature" [("mixture", mixture)].
Definition pressure_model (mixture : string) : model :=
  Model "OpenPNM.Phases.models.mixture_props.pressure" [("mixture", mixture)].

(** The body of the loop over [components] in [__init__], on the
    component: the two models are added and moved to the front. *)
Definition inherit_T_and_P (mixture : string) (comp : phase) : phase :=
  let ms := Core.add_model "pore.temperature" (temperature_model mixture) (_models comp) in
  let ms := Core.add_model "pore.pressure" (pressure_model mixture) ms in
  let ms := Core.reorder_models [("pore.temperature", 0); ("pore.pressure", 1)] ms in
  set_models ms comp.

(** [for comp in components: ...]: [self._phases.append(comp)] and the
    update of [comp], which is the object now held in [self._phases]. *)
Fixpoint attach_components (components : list phase) (self : phase) : phase :=
  match components with
  | [] => self
  | comp :: rest =>
      attach_components rest
        (set_phases (_phases self ++ [inherit_T_and_P (name self) comp]) self)
  end.

(** Modelled from the spec: the object as [Core.__init__] (absent)
    leaves it, with an empty property store, an empty registry of
    models, no components and no physics (section 3). *)
Definition Core_init : phase := Phase "" ∅ [] [] [] [].

Definition set_name (n : string) (p : phase) : phase :=
  Phase n (data p) (_models p) (_phases p) (_physics p) (_log p).

Definition on_self {A} (m : M phase A) : M (phase * network) A := λ '(self, net),
  let '(r, self') := m self in (r, (self', net)).
Definition on_net {A} (m : M network A) : M (phase * network) A := λ '(self, net),
  let '(r, net') := m net in (r, (self, net')).
(** [self[prop] = value] inside a method, with the current [self._net]. *)
Definition self_setitem (prop : string) (value : pyvalue) : M (phase * network) unit :=
  λ '(self, net), on_self (__setitem__ net prop value) (self, net).

Definition f298 : float := Fin (Q2Qc 298).
Definition f101325 : float := Fin (Q2Qc 101325).

(** [GenericPhase(network, components, name)], for a given network and
    name.  The state is the object under construction and the network;
    the constructed object is the first component of the state left
    behind. *)
Definition __init__ (components : list phase) (name : string)
  : M (phase * network) unit :=
  do _ <- on_self (λ self, (Returned tt, logger Debug "Construct class" self));
  do _ <- on_self (λ self, (Returned tt, set_name name self));
  do pall <- on_net (net_getitem "pore.all");
  do _ <- self_setitem "pore.all" (VArray pall);
  do tall <- on_net (net_getitem "throat.all");
  do _ <- self_setitem "throat.all" (VArray tall);
  do _ <- self_setitem "pore.temperature" (VFloat f298);
  do _ <- self_setitem "pore.pressure" (VFloat f101325);
  do _ <- on_net (net_setitem ("pore." +:+ name) (VBool true));
  do _ <- on_net (net_setitem ("throat." +:+ name) (VBool true));
  do _ <- on_self (λ self, (Returned tt, attach_components components self));
  on_net (λ net, (Returned tt, Network (net_data net) (net_phases net ++ [name]))).

(** The constructor call: a fresh object, then [__init__]. *)
Definition new (net : network) (components : list phase) (name : string)
  : outcome phase * network :=
  match __init__ components name (Core_init, net) with
  | (Returned _, (self, net)) => (Returned self, net)
  | (Raised e, (_, net)) => (Raised e, net)
  end.





Section Regeneration.

Context {St : Type}.
Variable run_model : string → string → model → St → option St.
Variable current : string → string → St → bool.

(** [self.regenerate] with the keyword arguments [kw]: the loop over
    [self._phases], then the method of the base class. *)
Fixpoint regenerate (self : phase) (kw : Core.regen_args)
  : M (St * list Core.event) unit :=
  match self with
  | Phase n _ ms ps _ _ =>
      do _ <- (fix each (items : list phase) : M (St * list Core.event) unit :=
                 match items with
                 | [] => ret tt
                 | item :: rest => do _ <- regenerate item kw; each rest
                 end) ps;
      Core.regenerate run_model current n ms kw
  end.

(** The loop [for item in self._phases: item.regenerate] with [kw], on
    its own. *)
Fixpoint regenerate_each (items : list phase) (kw : Core.regen_args)
  : M (St * list Core.event) unit :=
  match items with
  | [] => ret tt
  | item :: rest => do _ <- regenerate item kw; regenerate_each rest kw
  end.

End Regeneration.

(** Modelled from the spec: [self.physics()] ([Core.physics], absent),
    the names of the attached physics objects (section 3). *)
Definition physics_names (self : phase) : list string :=
  phys_name <$> _physics self.

(** [sp.where(cond)[0].tolist()]: the positions at which the test
    holds, in ascending order. *)
Definition where_ (test : float → bool) (a : list float) : list nat :=
  (filter (λ ix, test ix.2 = true) (imap pair a)).*1.

(** [a[ind] = a[ind] + 1].  A boolean [ind] is a mask and must have the
    length of [a]; an integer [ind] names positions, each of which is
    raised once however often it is named; a float array is no index. *)
Definition bump (a : list float) (ind : ndarray) : outcome (list float) :=
  match ind with
  | ABool m =>
      if decide (length m = length a)
      then Returned (zip_with (λ x (b : bool), if b then fadd x f1 else x) a m)
      else Raised IndexError
  | AConns l =>
      let idx := l.*1 ++ l.*2 in
      if decide (Forall (λ i, i < length a) idx)
      then Returned (imap (λ i x, if decide (i ∈ idx) then fadd x f1 else x) a)
      else Raised IndexError
  | AFloat _ => Raised IndexError
  end.

(** The loop of [check_physics_health] over the names [items]. *)
Fixpoint count_claims (net : network) (items : list string)
    (Ptemp Ttemp : list float) : M phase (list float * list float) :=
  match items with
  | [] => ret (Ptemp, Ttemp)
  | item :: rest =>
      do Pind <- __getitem__ net ("pore." +:+ item);
      do Tind <- __getitem__ net ("throat." +:+ item);
      do Ptemp <- lift (bump Ptemp Pind);
      do Ttemp <- lift (bump Ttemp Tind);
      count_claims net rest Ptemp Ttemp
  end.

(** [self.check_physics_health()]; [self.Np] and [self.Nt] are the
    element counts of the network of the phase.  The dict [health] is
    returned with its four keys in the order of their assignment. *)
Definition check_physics_health (net : network)
  : M phase (list (string * list nat)) :=
  do phys <- (λ self, (Returned (physics_names self), self));
  let Ptemp := replicate (Np net) f0 in
  let Ttemp := replicate (Nt net) f0 in
  do PT <- count_claims net phys Ptemp Ttemp;
  let health := @nil (string * list nat) in
  let health := Core.dict_set health "overlapping_pores" (where_ (λ x, fgt x f1) PT.1) in
  let health := Core.dict_set health "undefined_pores" (where_ (λ x, feq x f0) PT.1) in
  let health := Core.dict_set health "overlapping_throats" (where_ (λ x, fgt x f1) PT.2) in
  let health := Core.dict_set health "undefined_throats" (where_ (λ x, feq x f0) PT.2) in
  ret health.

(** An array as the right operand of [mole_sum + ...]: booleans count
    as one and zero.  The property arrays of a phase are
    one-dimensional; a two-column array is taken not to add to the
    per-pore sum. *)
Definition addend (a : ndarray) : outcome (list float) :=
  match a with
  | AFloat l => Returned l
  | ABool l => Returned (map (λ b : bool, if b then f1 else f0) l)
  | AConns _ => Raised ValueError
  end.

(** One pass of the loop of [check_mixture_health]: the [try] block on
    the component [comp], whose failure changes nothing of the sum.
    The components are phases on the network of the mixture. *)
Definition add_fraction (net : network) (comp : phase) (mole_sum : list float)
  : phase * list float :=
  let '(r, comp') := __getitem__ net "pore.mole_fraction" comp in
  match r with
  | Returned a =>
      match addend a with
      | Returned y =>
          match elementwise fadd mole_sum y with
          | Returned s => (comp', s)
          | Raised _ => (comp', mole_sum)
          end
      | Raised _ => (comp', mole_sum)
      end
  | Raised _ => (comp', mole_sum)
  end.

(** [for comp in self._phases: ...], giving the components as the
    reads leave them and the sum. *)
Fixpoint sum_fractions (net : network) (comps : list phase) (mole_sum : list float)
  : list phase * list float :=
  match comps with
  | [] => ([], mole_sum)
  | comp :: rest =>
      let '(comp', mole_sum') := add_fraction net comp mole_sum in
      let '(rest', out) := sum_fractions net rest mole_sum' in
      (comp' :: rest', out)
  end.

(** [self.check_mixture_health()] *)
Definition check_mixture_health (net : network) : M phase (list float) := λ self,
  let '(comps, mole_sum) :=
    sum_fractions net (_phases self) (replicate (Np net) f0) in
  (Returned mole_sum, set_phases comps self).

End GenericPhase.

(** ** [OpenPNM/Physics/models/electrical_conductance.py] *)

Module electrical_conductance.

Definition floor_value : float := Fin (Q2Qc (1 # 1000000000000)).

(** [a[a<=0] = 1e-12], on one element and on the array *)
Definition clamp1 (x : float) : float := if fle x f0 then floor_value else x.
Definition clamp (a : list float) : list float := map clamp1 a.

(** [g[~(g>0)] = inf], on one element and on the array *)
Definition to_inf1 (x : float) : float := if negb (fgt x f0) then PInf else x.
Definition to_inf (g : list float) : list float := map to_inf1 g.

Definition phase_getitem (key : string) : M (phase * network) ndarray :=
  λ '(ph, net), GenericPhase.on_self (GenericPhase.__getitem__ net key) (ph, net).

Definition net_floats (key : string) : M (phase * network) (list float) :=
  do a <- GenericPhase.on_net (GenericPhase.net_getitem key);
  lift (as_floats a).

(** The in-place assignment into the array that [network[key]] handed
    out: the stored array is that array. *)
Definition net_assign_in_place (key : string) (a : list float)
  : M (phase * network) unit :=
  GenericPhase.on_net
    (λ net, (Returned tt, Network (<[key := AFloat a]> (net_data net)) (net_phases net))).

Section WithCollaborators.

(** [phase.interpolate_data] (node values to one value per edge) and
    [phase.throats] (the edges under a label) are external
    collaborators (section 6). *)
Variable interpolate_data : list float → list float.
Variable throats : string → list nat.

Definition series_resistors (physics : physics)
      (pore_conductivity pore_area pore_diameter throat_area throat_length : string)
    : M (phase * network) (list float) :=
    do conns <- GenericPhase.on_net (GenericPhase.net_getitem "throat.conns");
    do Ps <- lift (as_conns conns);
    do sigmap_ <- phase_getitem pore_conductivity;
    do sigmap <- lift (as_floats sigmap_);
    let sigmat := interpolate_data sigmap in
    do parea <- net_floats pore_area;
    do pdia <- net_floats pore_diameter;
    do pdia1 <- lift (take pdia Ps.*1);
    do pdia2 <- lift (take pdia Ps.*2);
    let pdia1 := clamp pdia1 in
    let pdia2 := clamp pdia2 in
    do parea1 <- lift (take parea Ps.*1);
    do num1 <- lift (elementwise fmul sigmat parea1);
    do gp1 <- lift (elementwise fdiv num1 (scalar_mul_underflow fhalf pdia1));
    let gp1 := to_inf gp1 in
    do parea2 <- lift (take parea Ps.*2);
    do num2 <- lift (elementwise fmul sigmat parea2);
    do gp2 <- lift (elementwise fdiv num2 (scalar_mul_underflow fhalf pdia2));
    let gp2 := to_inf gp2 in
    do tarea <- net_floats throat_area;
    do tlen <- net_floats throat_length;
    let tlen := clamp tlen in
    do _ <- net_assign_in_place throat_length tlen;
    (* [tarea] is the same array as [tlen] when both keys are the same *)
    let tarea := if decide (throat_area = throat_length) then tlen else tarea in
    do numt <- lift (elementwise fmul sigmat tarea);
    do gt <- lift (elementwise fdiv numt tlen);
    do sum1 <- lift (elementwise fadd (scalar_rdiv f1 gt) (scalar_rdiv f1 gp1));
    do sum2 <- lift (elementwise fadd sum1 (scalar_rdiv f1 gp2));
    let value := map finv sum2 in
    lift (take value (throats (phys_name physics))).
End WithCollaborators.

(** The quantities of one edge, for the statements below: the
    conductance of the half of an endpoint node, of the edge body, and
    their combination in series. *)
Definition g_node (sigma area diameter : float) : float :=
  to_inf1 (fdiv (fmul sigma area) (fmul_underflow fhalf (clamp1 diameter))).
Definition g_edge (sigma area len : float) : float :=
  fdiv (fmul sigma area) (clamp1 len).
Definition series (ge ga gb : float) : float :=
  finv (fadd (fadd (fdiv f1 ge) (fdiv f1 ga)) (fdiv f1 gb)).

End electrical_conductance.

(** ** [openpnm/models/phases/mixtures.py] *)

Module mixtures.

(** An object of the mixture: its name and its dict. *)
Record species := Species {
  sp_name : string;
  sp_data : store }.

(** [obj[key]] read as a float array, and [obj[key] = array]. *)
Definition getitem (d : store) (key : string) : outcome (list float) :=
  match d !! key with
  | Some a => as_floats a
  | None => Raised NotFound
  end.

(** A scalar or an array, as the operand of an arithmetic operator. *)
Inductive operand :=
  | Sc (x : float)
  | Arr (l : list float).

Definition broadcast (f : float → float → float) (a b : operand) : outcome operand :=
  match a, b with
  | Sc x, Sc y => Returned (Sc (f x y))
  | Sc x, Arr l => Returned (Arr (map (f x) l))
  | Arr l, Sc y => Returned (Arr (map (λ x, f x y) l))
  | Arr l1, Arr l2 =>
      match elementwise f l1 l2 with
      | Returned l => Returned (Arr l)
      | Raised e => Raised e
      end
  end.

Definition obind {A B} (o : outcome A) (k : A → outcome B) : outcome B :=
  match o with
  | Returned a => k a
  | Raised e => Raised e
  end.

Notation "'let?' x := o 'in' k" := (obind o (λ x, k))
  (at level 10, x name, o at level 100, k at level 200).

Definition c_0_00143 : float := Fin (Q2Qc (143 # 100000)).
Definition c_1e3 : float := Fin (Q2Qc 1000).
Definition c_2 : float := Fin (Q2Qc 2).
Definition c_1e_5 : float := Fin (Q2Qc (1 # 100000)).
Definition c_1e_4 : float := Fin (Q2Qc (1 # 10000)).
Definition c_1_75 : float := Fin (Q2Qc (7 # 4)).
Definition c_0_5 : float := Fin (Q2Qc (1 # 2)).
Definition c_third : float := Fin (Q2Qc (1 # 3)).

Section WithPower.

(** [x ** y] for the exponents other than [-1]. *)
Variable fpow : float → float → float.

(** [fuller_diffusivity(target, ...)]: [target] is the dict of the
    mixture and [components] its ordered dict [target.components]. *)
Definition fuller_diffusivity (target : store) (components : list (string * species))
      (molecular_weight molar_diffusion_volume temperature pressure : string)
    : outcome (list float) :=
    match components.*2 with
    | [species_A; species_B] =>
        let? T := getitem target temperature in
        let? P := getitem target pressure in
        let? MA := getitem (sp_data species_A) molecular_weight in
        let? MB := getitem (sp_data species_B) molecular_weight in
        let? vA := getitem (sp_data species_A) molar_diffusion_volume in
        let? vB := getitem (sp_data species_A) molar_diffusion_volume in
        let? s := elementwise fadd (scalar_rdiv f1 MA) (scalar_rdiv f1 MB) in
        let MAB := scalar_mul (fmul c_1e3 c_2) (map finv s) in
        let P := map (λ p, fmul p c_1e_5) P in
        let num := scalar_mul c_0_00143 (map (λ t, fpow t c_1_75) T) in
        let? d1 := elementwise fmul P (map (λ m, fpow m c_0_5) MAB) in
        let? vs := elementwise fadd (map (λ v, fpow v c_third) vA)
                                    (map (λ v, fpow v c_third) vB) in
        let? d2 := elementwise fmul d1 (map (λ v, fpow v c_2) vs) in
        let? q := elementwise fdiv num d2 in
        Returned (map (λ x, fmul x c_1e_4) q)
    | _ => Raised ValueError
    end.

(** [obj[key] = D] on the object at position [i] of [comps]. *)
Definition setitem_at (i : nat) (key : string) (D : list float)
      (comps : list species) : list species :=
    match comps !! i with
    | Some A => <[i := Species (sp_name A) (<[key := AFloat D]> (sp_data A))]> comps
    | None => comps
    end.

(** The body of the first double loop for one [(i, j)]. *)
Definition pair_body (target : store)
      (molecular_weight molar_diffusion_volume temperature pressure : string)
      (i j : nat) : M (list species) unit := λ comps,
    if decide (i < j) then
      match comps !! i, comps !! j with
      | Some A, Some B =>
          let temp_components :=
            Core.dict_set (Core.dict_set [] (sp_name A) A) (sp_name B) B in
          match fuller_diffusivity target temp_components
                  molecular_weight molar_diffusion_volume temperature pressure with
          | Returned D =>
              let comps := setitem_at i ("pore.D_in_" +:+ sp_name B) D comps in
              let comps := setitem_at j ("pore.D_in_" +:+ sp_name A) D comps in
              (Returned tt, comps)
          | Raised e => (Raised e, comps)
          end
      | _, _ => (Raised IndexError, comps)
      end
    else (Returned tt, comps).

(** [for x in range(...)] with a body over a state. *)
Fixpoint for_each {S} (l : list nat) (body : nat → M S unit) : M S unit :=
    match l with
    | [] => ret tt
    | x :: l' => do _ <- body x; for_each l' body
    end.

(** [denom += t]: the float [0.0] plus an array is a new array; an
  array is added to in place, and only the right operand may be
  stretched. *)
Definition inplace_add (denom : operand) (t : list float) : outcome operand :=
  match denom with
  | Sc x => Returned (Arr (map (fadd x) t))
  | Arr d =>
      if decide (length d = length t) then Returned (Arr (zip_with fadd d t))
      else match t with
           | [y] => Returned (Arr (map (λ x, fadd x y) d))
           | _ => Raised ValueError
           end
  end.

(** The inner loop of the second part: [denom += yB/Dab] for [j != i]. *)
Fixpoint denominator (target : store) (mole_fraction : string)
      (A : species) (i : nat) (js : list (nat * species)) (denom : operand)
    : outcome operand :=
    match js with
    | [] => Returned denom
    | (j, B) :: js' =>
        if decide (i ≠ j) then
          let? yB := getitem target (mole_fraction +:+ "." +:+ sp_name B) in
          let? Dab := getitem (sp_data A) ("pore.D_in_" +:+ sp_name B) in
          let? t := elementwise fdiv yB Dab in
          let? denom := inplace_add denom t in
          denominator target mole_fraction A i js' denom
        else denominator target mole_fraction A i js' denom
    end.

(** The outer loop of the second part, filling the dict [values]. *)
Fixpoint effective (target : store) (mole_fraction : string)
      (comps : list species) (todo : list (nat * species))
      (values : list (string * operand)) : outcome (list (string * operand)) :=
    match todo with
    | [] => Returned values
    | (i, A) :: todo' =>
        let? yA := getitem target (mole_fraction +:+ "." +:+ sp_name A) in
        let? denom := denominator target mole_fraction A i (imap pair comps) (Sc f0) in
        let? v := broadcast fdiv (Arr (map (fsub f1) yA)) denom in
        effective target mole_fraction comps todo' (Core.dict_set values (sp_name A) v)
    end.

(** [wilke_fuller_diffusivity(target, ...)]: the state is the list
    [comps] of the component objects, which the first part writes to. *)
Definition wilke_fuller_diffusivity (target : store)
      (mole_fraction molecular_weight molar_diffusion_volume temperature pressure : string)
    : M (list species) (list (string * operand)) :=
    do comps0 <- get_state;
    let n := length comps0 in
    do _ <- for_each (seq 0 n) (λ i,
              for_each (seq 0 n) (λ j,
                pair_body target molecular_weight molar_diffusion_volume
                          temperature pressure i j));
    do comps <- get_state;
    lift (effective target mole_fraction comps (imap pair comps) []).
End WithPower.

(** [prop.split('.')[0]]: the part of [prop] before its first dot. *)
Fixpoint before_dot (s : string) : string :=
  match s with
  | EmptyString => EmptyString
  | String c s' =>
      if Ascii.eqb c "."%char then EmptyString else String c (before_dot s')
  end.

(** [vals += t] on an array [vals]: the sum is written into [vals], so
    only [t] may be stretched. *)
Definition iadd (vals t : list float) : outcome (list float) :=
  if decide (length vals = length t) then Returned (zip_with fadd vals t)
  else match t with
       | [y] => Returned (map (λ x, fadd x y) vals)
       | _ => Raised ValueError
       end.

Section WithProject.

(** [target._count] (the number of elements of a domain) and
    [target.project[name]] (the object of that name) are external
    collaborators. *)
Variable _count : string → outcome nat.
Variable project : string → outcome species.

(** The loop of [mole_weighted_average] over the names [items]. *)
Fixpoint weighted_sum (target : store) (element prop : string)
      (items : list string) (vals : list float) : outcome (list float) :=
    match items with
    | [] => Returned vals
    | item :: rest =>
        let? frac := getitem target (element +:+ ".mole_fraction." +:+ item) in
        let? obj := project item in
        let? temp := getitem (sp_data obj) prop in
        let? t := elementwise fmul temp frac in
        let? vals := iadd vals t in
        weighted_sum target element prop rest vals
    end.

(** [mole_weighted_average(target, prop)]: [target] is the dict of the
    mixture and [components] its ordered dict [target.components]. *)
Definition mole_weighted_average (target : store)
      (components : list (string * species)) (prop : string)
    : outcome (list float) :=
    let element := before_dot prop in
    let? n := _count element in
    let vals := replicate n f0 in
    weighted_sum target element prop components.*1 vals.

End WithProject.

End mixtures.

(** ** Concrete objects *)

Module Examples.

Definition q (n : Z) (d : positive) : float := Fin (Q2Qc (n # d)).

(** A chain of three pores and two throats.  The second pore has
    diameter zero, the third a negative one and no cross-section; the
    first throat has length zero. *)
Definition net3 : network :=
  Network
    (<["pore.all" := ABool [true; true; true]]>
    (<["throat.all" := ABool [true; true]]>
    (<["throat.conns" := AConns [(0, 1); (1, 2)]]>
    (<["pore.area" := AFloat [q 1 1; q 2 1; q 0 1]]>
    (<["pore.diameter" := AFloat [q 1 1; q 0 1; q (-1) 1]]>
    (<["throat.area" := AFloat [q 1 1; q 1 1]]>
    (<["throat.length" := AFloat [q 0 1; q 3 1]]> ∅)))))))
    [].

(** The same chain, the first pore having the least positive diameter
    that binary64 holds. *)
Definition tiny_pore : network :=
  Network
    (<["pore.all" := ABool [true; true; true]]>
    (<["throat.all" := ABool [true; true]]>
    (<["throat.conns" := AConns [(0, 1); (1, 2)]]>
    (<["pore.area" := AFloat [q 1 1; q 2 1; q 1 1]]>
    (<["pore.diameter" := AFloat [Fin least_positive; q 1 1; q 1 1]]>
    (<["throat.area" := AFloat [q 1 1; q 1 1]]>
    (<["throat.length" := AFloat [q 1 1; q 3 1]]> ∅)))))))
    [].

Definition conducting : phase :=
  Phase "air"
    (<["pore.electrical_conductivity" := AFloat [q 1 1; q 1 1; q 1 1]]> ∅)
    [] [] [] [].

Definition phys1 : physics := Physics "phys1" ∅ [] [].

(** An interpolation that gives every throat the conductivity one, and
    both throats under every label. *)
Definition ones (sigmap : list float) : list float := [q 1 1; q 1 1].
Definition both (label : string) : list nat := [0; 1].

(** A phase with one physics object, which covers the first two pores
    and the first throat and defines the viscosity there. *)
Definition viscous : physics :=
  Physics "phys_water"
    (<["pore.viscosity" := AFloat [q 1 1000; q 2 1000]]> ∅) [0; 1] [0].
Definition wet : phase :=
  Phase "water" (<["pore.all" := ABool [true; true; true]]> ∅) [] [] [viscous] [].


(** A gas mixture over one pore: its dict, and a species with a
    molecular weight and a molar diffusion volume. *)
Definition mixture_data (yA yB : float) : store :=
  <["pore.temperature" := AFloat [q 1 1]]>
  (<["pore.pressure" := AFloat [q 100000 1]]>
  (<["pore.mole_fraction.A" := AFloat [yA]]>
  (<["pore.mole_fraction.B" := AFloat [yB]]> ∅))).
Definition gas (n : string) (M v : float) : mixtures.species :=
  mixtures.Species n
    (<["pore.molecular_weight" := AFloat [M]]>
    (<["pore.molar_diffusion_volume" := AFloat [v]]> ∅)).

(** [x ** y] where the power of a rational is a rational: base one, or
    exponent two; [nan] stands for every other power. *)
Definition pow_exact (x y : float) : float :=
  if decide (x = f1) then f1
  else if decide (y = mixtures.c_2) then fmul x x
  else NaN.

(** Two gases of molecular weight 0.001 and molar diffusion volume 1,
    and the same two once their binary diffusivity is stored on both. *)
Definition two_gases : list mixtures.species :=
  [gas "A" (q 1 1000) (q 1 1); gas "B" (q 1 1000) (q 1 1)].
Definition D_AB : float := q 143 4000000000.
Definition gas_A_after : mixtures.species :=
  mixtures.Species "A"
    (<["pore.D_in_B" := AFloat [D_AB]]> (mixtures.sp_data (gas "A" (q 1 1000) (q 1 1)))).
Definition gas_B_after : mixtures.species :=
  mixtures.Species "B"
    (<["pore.D_in_A" := AFloat [D_AB]]> (mixtures.sp_data (gas "B" (q 1 1000) (q 1 1)))).
Definition two_gases_after : list mixtures.species := [gas_A_after; gas_B_after].

(** A network of five pores and four throats, and a phase on it with
    two physics objects: region A covers the pores 0, 1, 2 and the
    throats 0, 1; region B covers the pores 2, 3, 4 and the throat 3. *)
Definition net5 : network :=
  Network
    (<["pore.all" := ABool [true; true; true; true; true]]>
    (<["throat.all" := ABool [true; true; true; true]]> ∅))
    [].
Definition two_regions : phase :=
  Phase "water"
    (<["pore.A" := ABool [true; true; true; false; false]]>
    (<["pore.B" := ABool [false; false; true; true; true]]>
    (<["throat.A" := ABool [true; true; false; false]]>
    (<["throat.B" := ABool [false; false; false; true]]> ∅))))
    [] [] [Physics "A" ∅ [0; 1; 2] [0; 1]; Physics "B" ∅ [2; 3; 4] [3]] [].

(** A mixture on the chain of three pores: two components whose mole
    fractions add up to one at every pore, and a third that has none. *)
Definition component (n : string) (y : list float) : phase :=
  Phase n (<["pore.mole_fraction" := AFloat y]> ∅) [] [] [] [].
Definition blend : phase :=
  Phase "blend" ∅ []
    [component "N2" [q 1 4; q 1 2; q 1 1];
     Phase "Ar" ∅ [] [] [] [];
     component "O2" [q 3 4; q 1 2; q 0 1]]
    [] [].

(** Two components of the same name. *)
Definition twins : list mixtures.species :=
  [gas "A" (q 1 1000) (q 1 1); gas "A" (q 1 1000) (q 1 1)].

(** A project that holds the two gases, over one pore. *)
Definition one_pore (element : string) : outcome nat := Returned 1.
Definition by_name (item : string) : outcome mixtures.species :=
  if decide (item = "A") then Returned (gas "A" (q 1 1000) (q 1 1))
  else if decide (item = "B") then Returned (gas "B" (q 1 1000) (q 1 1))
  else Raised NotFound.
Definition components_AB : list (string * mixtures.species) :=
  [("A", gas "A" (q 1 1000) (q 1 1)); ("B", gas "B" (q 1 1000) (q 1 1))].

End Examples.

(** ** Definitions for the statements *)

(** The dict of a phase when its constructor returns. *)
Definition fresh_data (net : network) (pall tall : ndarray) : store :=
  <["pore.pressure" := AFloat (replicate (GenericPhase.Np net) GenericPhase.f101325)]>
    (<["pore.temperature" := AFloat (replicate (GenericPhase.Np net) GenericPhase.f298)]>
       (<["throat.all" := tall]> (<["pore.all" := pall]> ∅))).

(** The phase with other physics objects attached. *)
Definition set_physics (phs : list physics) (p : phase) : phase :=
  Phase (name p) (data p) (_models p) (_phases p) phs (_log p).

(** The name of a phase and the names of all phases below it. *)
Fixpoint names_below (p : phase) : list string :=
  match p with
  | Phase n _ _ ps _ _ =>
      n :: (fix go (l : list phase) : list string :=
              match l with
              | [] => []
              | c :: l' => names_below c ++ go l'
              end) ps
  end.

(** [m] leaves every state related by [R] to the one it started from. *)
Definition keeps {S A} (R : S → S → Prop) (m : M S A) : Prop :=
  ∀ s, R s (m s).2.

(** The arrays stored on the network are the same, those under [keys]
    apart. *)
Definition same_arrays_except (keys : list string) (s s' : phase * network) : Prop :=
  ∀ k, k ∉ keys → net_data s'.2 !! k = net_data s.2 !! k.


(** The Fuller correlation of section 4.5 for one pair at one pore,
    [T^1.75 / (P * sqrt(M_AB) * (v_A^(1/3) + v_B^(1/3))^2)] with
    [M_AB = 2*(1/M_A + 1/M_B)^-1], in the units and with the factor of
    the code. *)
Definition Fuller_correlation (fpow : float → float → float)
    (T P MA MB vA vB : float) : float :=
  let MAB :=
    fmul (fmul mixtures.c_1e3 mixtures.c_2) (finv (fadd (fdiv f1 MA) (fdiv f1 MB))) in
  fmul
    (fdiv (fmul mixtures.c_0_00143 (fpow T mixtures.c_1_75))
       (fmul (fmul (fmul P mixtures.c_1e_5) (fpow MAB mixtures.c_0_5))
          (fpow (fadd (fpow vA mixtures.c_third) (fpow vB mixtures.c_third))
             mixtures.c_2)))
    mixtures.c_1e_4.

(** The sum [Σ (y_B / D_AB)] over the partners, added up from [0.0] in
    their order, and the effective diffusivity
    [(1 - y_A) / Σ (y_B / D_AB)] of section 4.5 at one pore. *)
Definition wilke_sum (partners : list (float * float)) : float :=
  foldl (λ acc yD, fadd acc (fdiv yD.1 yD.2)) f0 partners.
Definition wilke_effective (yA : float) (partners : list (float * float)) : float :=
  fdiv (fsub f1 yA) (wilke_sum partners).

(** The value at pore [n] of the array under [key], [nan] without one. *)
Definition at_pore (d : store) (key : string) (n : nat) : float :=
  match d !! key with
  | Some (AFloat l) => default NaN (l !! n)
  | _ => NaN
  end.

(** The value of an operand at pore [n]. *)
Definition operand_at (o : mixtures.operand) (n : nat) : float :=
  match o with
  | mixtures.Sc x => x
  | mixtures.Arr l => default NaN (l !! n)
  end.

(** For the component [A] at position [i]: the pairs of [y_B] and
    [D_AB] at pore [n], over the components [B] at the other positions
    of [js]. *)
Definition partners_at (target : store) (mole_fraction : string)
    (A : mixtures.species) (i : nat) (js : list (nat * mixtures.species))
    (n : nat) : list (float * float) :=
  (λ jB, (at_pore target (mole_fraction +:+ "." +:+ mixtures.sp_name jB.2) n,
          at_pore (mixtures.sp_data A) ("pore.D_in_" +:+ mixtures.sp_name jB.2) n))
    <$> filter (λ jB, jB.1 ≠ i) js.

(** The value at pore [n] of the property [prop] of the object that the
    project holds under the name [item], [nan] without one. *)
Definition value_of (project : string → outcome mixtures.species)
    (prop item : string) (n : nat) : float :=
  match project item with
  | Returned obj => at_pore (mixtures.sp_data obj) prop n
  | Raised _ => NaN
  end.

(** A scalar, or an array over [L] pores. *)
Definition shaped (L : nat) (o : mixtures.operand) : Prop :=
  match o with
  | mixtures.Sc _ => True
  | mixtures.Arr l => length l = L
  end.

(** The array of [(1 - y_A) / Σ (y_B / D_AB)] over [L] pores for the
    component [A] at position [i] of [comps]. *)
Definition effective_array (target : store) (mole_fraction : string) (L : nat)
    (comps : list mixtures.species) (i : nat) (A : mixtures.species)
  : mixtures.operand :=
  mixtures.Arr
    ((λ n, wilke_effective
             (at_pore target (mole_fraction +:+ "." +:+ mixtures.sp_name A) n)
             (partners_at target mole_fraction A i (imap pair comps) n))
       <$> seq 0 L).

(** The float that a count of [c] is. *)
Definition count_float (c : nat) : float := Fin (Q2Qc (inject_Z (Z.of_nat c))).

(** Whether the mask that [self] stores under [key] holds at [i]. *)
Definition mask_at (self : phase) (key : string) (i : nat) : bool :=
  match data self !! key with
  | Some (ABool m) => default false (m !! i)
  | _ => false
  end.

(** How many of the physics objects named in [items] claim the element
    [i] of the domain ("pore." or "throat."). *)
Definition claims_at (self : phase) (domain : string) (items : list string)
    (i : nat) : nat :=
  length (filter (λ item, mask_at self (domain +:+ item) i = true) items).

(** The object is what it was, but for what its logger received. *)
Definition logged_only (s s' : phase) : Prop :=
  name s' = name s ∧ data s' = data s ∧ _models s' = _models s
  ∧ _phases s' = _phases s ∧ _physics s' = _physics s.

(** The mole fraction of the component [comp] at pore [i], when the
    read [comp['pore.mole_fraction']] gives a float array. *)
Definition fraction_at (net : network) (comp : phase) (i : nat) : option float :=
  match (GenericPhase.__getitem__ net "pore.mole_fraction" comp).1 with
  | Returned (AFloat l) => l !! i
  | _ => None
  end.

(** Of the phase only the log may differ; the network has the same
    registered phases and stores arrays under the same keys. *)
Definition no_new_entries (s s' : phase * network) : Prop :=
  logged_only s.1 s'.1
  ∧ net_phases s'.2 = net_phases s.2
  ∧ dom (net_data s'.2) = dom (net_data s.2).

(** No key of the dict of the phase is a key of one of its physics
    objects. *)
Definition single_source (self : phase) : Prop :=
  ∀ k, is_Some (data self !! k) →
    GenericPhase.defined_in_physics k (_physics self) = false.

(** Induction over a phase and its components. *)
Fixpoint phase_rect_components (P : phase → Prop)
    (step : ∀ n d ms ps phs lg, Forall P ps → P (Phase n d ms ps phs lg))
    (p : phase) : P p :=
  match p with
  | Phase n d ms ps phs lg =>
      step n d ms ps phs lg
        ((fix go (l : list phase) : Forall P l :=
            match l with
            | [] => Forall_nil P
            | c :: l' => Forall_cons P c l' (phase_rect_components P step c) (go l')
            end) ps)
  end.

(** * Properties *)

(** ** Floating-point values *)

Lemma fadd_0_r (x : float) : fadd x f0 = x.
Proof. destruct x; simpl; try done. f_equal. ring. Qed.

Lemma fdiv_1_PInf : fdiv f1 PInf = f0.
Proof. done. Qed.

Lemma fin_inj (a b : Qc) : Fin a = Fin b → a = b.
Proof.
  intros E.
  exact (f_equal (λ x, match x with Fin q => q | _ => a end) E).
Qed.

Lemma clamp1_nonzero (x : float) : electrical_conductance.clamp1 x ≠ f0.
Proof.
  unfold electrical_conductance.clamp1. destruct (fle x f0) eqn:E.
  - intros H. apply fin_inj in H. apply (f_equal this) in H.
    vm_compute in H. discriminate.
  - destruct x as [q| | |]; try done. simpl in E.
    apply bool_decide_eq_false in E. intros H. apply fin_inj in H. subst q.
    by apply E.
Qed.

(** *** Underflow of the halved diameter *)

Lemma nearest_even_zero (x : Q) :
  (0 <= x)%Q → nearest_even x = 0%Z ↔ (x <= 1 # 2)%Q.
Proof.
  intros Hx. unfold nearest_even.
  pose proof (Qfloor_le x) as Hlo. pose proof (Qlt_floor x) as Hhi.
  generalize dependent (Qfloor x). intros n Hlo Hhi.
  assert (Hn : (0 <= n)%Z).
  { assert (H : (inject_Z 0 < inject_Z (n + 1))%Q)
      by (apply Qle_lt_trans with x; [exact Hx | exact Hhi]).
    rewrite <- Zlt_Qlt in H. lia. }
  destruct (Z.eq_dec n 0%Z) as [Hn0|Hn0].
  - subst n. simpl in *.
    destruct (Qcompare_spec (x - inject_Z 0) (1 # 2)) as [E|E|E].
    + split; [intros _|done]. unfold inject_Z in E. lra.
    + split; [intros _|done]. unfold inject_Z in E. lra.
    + split; [done|]. intros H. unfold inject_Z in E. lra.
  - assert (H1 : (inject_Z 1 <= inject_Z n)%Q) by (rewrite <- Zle_Qle; lia).
    split.
    + intros H. exfalso.
      destruct (x - inject_Z n ?= 1 # 2)%Q; [destruct (Z.even n)|..]; lia.
    + intros H. exfalso. unfold inject_Z in H1 at 1. lra.
Qed.

Lemma least_positive_pos : (0 < least_positive)%Qc.
Proof. apply (bool_decide_unpack _). vm_compute. exact I. Qed.

Lemma least_normal_above : (Q2Qc (1 # 2) * least_positive < least_normal)%Qc.
Proof. apply (bool_decide_unpack _). vm_compute. exact I. Qed.

Lemma floor_above_least_positive :
  (least_positive < Q2Qc (1 # 1000000000000))%Qc.
Proof. apply (bool_decide_unpack _). vm_compute. exact I. Qed.

Lemma Q2Qc_inject_Z_zero (n : Z) : Q2Qc (inject_Z n) = 0%Qc → n = 0%Z.
Proof.
  intros H. apply (f_equal this) in H. simpl in H.
  assert (E : (inject_Z n == 0)%Q).
  { rewrite <- (Qred_correct (inject_Z n)). rewrite H. reflexivity. }
  unfold Qeq in E. simpl in E. lia.
Qed.

(** Half of a positive number is stored as zero exactly when the
    number is at most [2^-1074]. *)
Lemma half_underflows (c : Qc) :
  (0 < c)%Qc →
  fmul_underflow fhalf (Fin c) = f0 ↔ (c ≤ least_positive)%Qc.
Proof.
  intros Hc.
  set (h := Q2Qc (1 # 2)).
  assert (Hh : (0 < h)%Qc) by reflexivity.
  assert (Hq : (0 < h * c)%Qc) by (by apply Qcmult_pos_pos).
  pose proof least_positive_pos as Hlp.
  assert (Hlp0 : least_positive ≠ 0%Qc).
  { intros E. rewrite E in Hlp. by apply (Qclt_not_le _ _ Hlp). }
  change (fmul_underflow fhalf (Fin c)) with (Fin (underflow (h * c))).
  unfold underflow.
  rewrite decide_True; last first.
  { apply Qclt_trans with 0%Qc; [|done].
    apply (bool_decide_unpack _). vm_compute. exact I. }
  destruct (decide (h * c < least_normal)%Qc) as [Hsub|Hnorm].
  - assert (Hquot : (this (h * c / least_positive)%Qc <= 1 # 2)%Q
                    ↔ (c ≤ least_positive)%Qc).
    { change ((h * c / least_positive ≤ h)%Qc ↔ (c ≤ least_positive)%Qc).
      rewrite (Qcmult_le_mono_pos_r _ _ least_positive Hlp).
      replace (h * c / least_positive * least_positive)%Qc with (h * c)%Qc
        by (by field).
      by rewrite <- (Qcmult_le_mono_pos_l _ _ h Hh). }
    assert (Hnn : (0 <= this (h * c / least_positive)%Qc)%Q).
    { change (0 ≤ h * c / least_positive)%Qc. apply Qclt_le_weak.
      unfold Qcdiv. apply Qcmult_pos_pos; [done|by apply Qcinv_pos]. }
    rewrite <- Hquot, <- (nearest_even_zero _ Hnn). split.
    + intros H. apply fin_inj in H.
      apply Qcmult_integral in H as [H|H]; [|done].
      by apply Q2Qc_inject_Z_zero.
    + intros ->. unfold f0. f_equal. apply Qcmult_0_l.
  - split.
    + intros H. apply fin_inj in H. rewrite H in Hq.
      exfalso. by apply (Qclt_not_le _ _ Hq).
    + intros Hle. exfalso. apply Hnorm.
      apply Qcle_lt_trans with (h * least_positive)%Qc; [|apply least_normal_above].
      exact (proj1 (Qcmult_le_mono_pos_l c least_positive h Hh) Hle).
Qed.

(** The divisor that the calculator builds from a node diameter is zero
    exactly when the diameter is positive and at most [2^-1074]. *)
Lemma half_clamp1_zero (x : float) :
  fmul_underflow fhalf (electrical_conductance.clamp1 x) = f0
  ↔ ∃ d, x = Fin d ∧ (0 < d)%Qc ∧ (d ≤ least_positive)%Qc.
Proof.
  assert (Hfloor : fmul_underflow fhalf electrical_conductance.floor_value ≠ f0).
  { intros H. apply (half_underflows (Q2Qc (1 # 1000000000000))) in H; [|reflexivity].
    by apply (Qclt_not_le _ _ floor_above_least_positive). }
  unfold electrical_conductance.clamp1.
  destruct x as [d| | |]; simpl fle.
  - destruct (bool_decide (d ≤ 0)%Qc) eqn:E.
    + apply bool_decide_eq_true in E. split; [done|].
      intros (d' & [= <-] & Hpos & _). exfalso. by apply (Qclt_not_le _ _ Hpos).
    + apply bool_decide_eq_false in E. apply Qcnot_le_lt in E.
      rewrite (half_underflows d E). split.
      * intros H. by exists d.
      * by intros (d' & [= <-] & _ & H).
  - split; [done|]. by intros (d & ? & _).
  - split; [done|]. by intros (d & ? & _).
  - split; [done|]. by intros (d & ? & _).
Qed.

(** A zero divisor leaves a node half with the conductance [+inf]. *)
Lemma to_inf1_fdiv_zero (x : float) :
  electrical_conductance.to_inf1 (fdiv x f0) = PInf.
Proof.
  unfold electrical_conductance.to_inf1.
  destruct x as [a| | |]; try done.
  unfold fdiv, f0. rewrite decide_True by done.
  destruct (decide (a = 0%Qc)); [done|]. by destruct (decide (0 < a)%Qc).
Qed.

Lemma to_inf1_positive (g : float) :
  fgt (electrical_conductance.to_inf1 g) f0 = true.
Proof. unfold electrical_conductance.to_inf1. by destruct (fgt g f0) eqn:E. Qed.

Lemma to_inf1_not_positive (g : float) :
  fgt g f0 = false → electrical_conductance.to_inf1 g = PInf.
Proof. unfold electrical_conductance.to_inf1. by intros ->. Qed.

(** ** Arrays *)

Lemma take_lookup {A} (a : list A) (idx : list nat) :
  Forall (λ i, i < length a) idx →
  ∃ r, take a idx = Returned r ∧ length r = length idx ∧
       ∀ k i, idx !! k = Some i → r !! k = a !! i.
Proof.
  induction 1 as [|i idx Hi _ (r & Hr & Hlen & Hlk)]; simpl.
  - exists []. split_and!; [done..|]. intros k i Hk. by rewrite lookup_nil in Hk.
  - destruct (lookup_lt_is_Some_2 a i Hi) as [x Hx]. rewrite Hx, Hr.
    exists (x :: r). split_and!; [done|simpl; lia|].
    intros [|k] j Hk; simpl in *; [by simplify_eq | by apply Hlk].
Qed.

Lemma elementwise_same_length f (a b : list float) :
  length a = length b → elementwise f a b = Returned (zip_with f a b).
Proof. intros H. unfold elementwise. by rewrite decide_True. Qed.

Import GenericPhase electrical_conductance.

Lemma on_net_getitem (key : string) (ph : phase) (net : network) (a : ndarray) :
  net_data net !! key = Some a →
  on_net (net_getitem key) (ph, net) = (Returned a, (ph, net)).
Proof.
  intros H. unfold on_net, net_getitem, Core.__getitem__. rewrite H.
  by destruct net.
Qed.

Lemma net_floats_lookup (key : string) (ph : phase) (net : network) (l : list float) :
  net_data net !! key = Some (AFloat l) →
  net_floats key (ph, net) = (Returned l, (ph, net)).
Proof.
  intros H. unfold net_floats, bind. by rewrite (on_net_getitem _ _ _ _ H).
Qed.

Lemma bind_returned {S A B} (m : M S A) (k : A → M S B) s a s' :
  m s = (Returned a, s') → bind m k s = k a s'.
Proof. intros H. unfold bind. by rewrite H. Qed.

Lemma bind_lift {S A B} (o : outcome A) (k : A → M S B) s a :
  o = Returned a → bind (lift o) k s = k a s.
Proof. by intros ->. Qed.

Section SeriesResistors.
Variable interpolate_data : list float → list float.
Variable throats : string → list nat.
Variables (physics : physics) (ph ph' : phase) (net : network).
Variables pore_conductivity pore_area pore_diameter throat_area throat_length : string.
Variables (Ps : list (nat * nat)) (sigmap parea pdia tarea tlen : list float).

Let sigmat := interpolate_data sigmap.
Let Ts := throats (phys_name physics).

Hypothesis Hconns : net_data net !! "throat.conns" = Some (AConns Ps).
Hypothesis Hsigma :
    GenericPhase.__getitem__ net pore_conductivity ph = (Returned (AFloat sigmap), ph').
Hypothesis Hsigmat : length sigmat = length Ps.
Hypothesis Hparea : net_data net !! pore_area = Some (AFloat parea).
Hypothesis Hpdia : net_data net !! pore_diameter = Some (AFloat pdia).
Hypothesis Htarea : net_data net !! throat_area = Some (AFloat tarea).
Hypothesis Htlen : net_data net !! throat_length = Some (AFloat tlen).
Hypothesis Hkeys : throat_area ≠ throat_length.
Hypothesis Hnp : length parea = length pdia.
Hypothesis HPs : Forall (λ ab, ab.1 < length pdia ∧ ab.2 < length pdia) Ps.
Hypothesis Hntarea : length tarea = length Ps.
Hypothesis Hntlen : length tlen = length Ps.
Hypothesis HTs : Forall (λ t, t < length Ps) Ts.

Lemma series_resistors_edges :
    ∃ value,
      series_resistors interpolate_data throats physics pore_conductivity
        pore_area pore_diameter throat_area throat_length (ph, net)
      = (Returned value,
         (ph', Network (<[throat_length := AFloat (clamp tlen)]> (net_data net))
                       (net_phases net)))
      ∧ length value = length Ts
      ∧ ∀ k t, Ts !! k = Some t →
          ∃ a b sg ta tl aa da ab db,
            Ps !! t = Some (a, b) ∧ sigmat !! t = Some sg ∧
            tarea !! t = Some ta ∧ tlen !! t = Some tl ∧
            parea !! a = Some aa ∧ pdia !! a = Some da ∧
            parea !! b = Some ab ∧ pdia !! b = Some db ∧
            value !! k =
              Some (series (g_edge sg ta tl) (g_node sg aa da) (g_node sg ab db)).
Proof.
    assert (H1 : Forall (λ i, i < length pdia) Ps.*1).
    { apply Forall_fmap. eapply Forall_impl; [|exact HPs]. by intros ? []. }
    assert (H2 : Forall (λ i, i < length pdia) Ps.*2).
    { apply Forall_fmap. eapply Forall_impl; [|exact HPs]. by intros ? []. }
    destruct (take_lookup pdia _ H1) as (pdia1 & Ep1 & Lp1 & Kp1).
    destruct (take_lookup pdia _ H2) as (pdia2 & Ep2 & Lp2 & Kp2).
    rewrite <- Hnp in H1, H2.
    destruct (take_lookup parea _ H1) as (parea1 & Ea1 & La1 & Ka1).
    destruct (take_lookup parea _ H2) as (parea2 & Ea2 & La2 & Ka2).
    rewrite length_fmap in Lp1, Lp2, La1, La2.
    set (gp1 := to_inf (zip_with fdiv (zip_with fmul sigmat parea1)
                          (scalar_mul_underflow fhalf (clamp pdia1)))).
    set (gp2 := to_inf (zip_with fdiv (zip_with fmul sigmat parea2)
                          (scalar_mul_underflow fhalf (clamp pdia2)))).
    set (gt := zip_with fdiv (zip_with fmul sigmat tarea) (clamp tlen)).
    set (value := map finv (zip_with fadd (zip_with fadd (scalar_rdiv f1 gt)
                     (scalar_rdiv f1 gp1)) (scalar_rdiv f1 gp2))).
    assert (Lg1 : length gp1 = length Ps).
    { unfold gp1, to_inf, scalar_mul_underflow, clamp.
      rewrite length_map, !length_zip_with, !length_map. lia. }
    assert (Lg2 : length gp2 = length Ps).
    { unfold gp2, to_inf, scalar_mul_underflow, clamp.
      rewrite length_map, !length_zip_with, !length_map. lia. }
    assert (Lgt : length gt = length Ps).
    { unfold gt, clamp. rewrite !length_zip_with, !length_map. lia. }
    assert (Lv : length value = length Ps).
    { unfold value, scalar_rdiv.
      rewrite length_map, !length_zip_with, !length_map. lia. }
    assert (HT : Forall (λ t, t < length value) Ts) by by rewrite Lv.
    destruct (take_lookup value _ HT) as (out & Eout & Lout & Kout).
    exists out. split_and!; [|done|].
    - unfold series_resistors.
      rewrite (bind_returned _ _ _ _ _ (on_net_getitem _ _ _ _ Hconns)).
      rewrite (bind_lift _ _ _ Ps eq_refl).
      erewrite bind_returned; last first.
      { unfold phase_getitem, on_self. by rewrite Hsigma. }
      rewrite (bind_lift _ _ _ sigmap eq_refl).
      rewrite (bind_returned _ _ _ _ _ (net_floats_lookup _ _ _ _ Hparea)).
      rewrite (bind_returned _ _ _ _ _ (net_floats_lookup _ _ _ _ Hpdia)).
      rewrite (bind_lift _ _ _ _ Ep1), (bind_lift _ _ _ _ Ep2).
      rewrite (bind_lift _ _ _ _ Ea1).
      rewrite (bind_lift _ _ _ (zip_with fmul sigmat parea1)); last first.
      { apply elementwise_same_length. fold sigmat. lia. }
      erewrite bind_lift; last first.
      { apply elementwise_same_length. unfold scalar_mul_underflow, clamp.
        rewrite length_zip_with, !length_map. fold sigmat. lia. }
      rewrite (bind_lift _ _ _ _ Ea2).
      rewrite (bind_lift _ _ _ (zip_with fmul sigmat parea2)); last first.
      { apply elementwise_same_length. fold sigmat. lia. }
      erewrite bind_lift; last first.
      { apply elementwise_same_length. unfold scalar_mul_underflow, clamp.
        rewrite length_zip_with, !length_map. fold sigmat. lia. }
      rewrite (bind_returned _ _ _ _ _ (net_floats_lookup _ _ _ _ Htarea)).
      rewrite (bind_returned _ _ _ _ _ (net_floats_lookup _ _ _ _ Htlen)).
      erewrite bind_returned; last by reflexivity.
      rewrite decide_False by done.
      erewrite bind_lift; last first.
      { apply elementwise_same_length. fold sigmat. lia. }
      erewrite bind_lift; last first.
      { apply elementwise_same_length. unfold clamp.
        rewrite length_zip_with, !length_map. fold sigmat. lia. }
      fold sigmat gp1 gp2 gt.
      erewrite bind_lift; last first.
      { apply elementwise_same_length. unfold scalar_rdiv.
        rewrite !length_map. lia. }
      erewrite bind_lift; last first.
      { apply elementwise_same_length. unfold scalar_rdiv.
        rewrite length_zip_with, !length_map. lia. }
      fold value. fold Ts. unfold lift. by rewrite Eout.
    - intros k t Hk.
      assert (Ht : t < length Ps) by (eapply Forall_lookup_1 in HTs; eauto).
      destruct (lookup_lt_is_Some_2 Ps t Ht) as [[a b] HPt].
      destruct (lookup_lt_is_Some_2 sigmat t ltac:(lia)) as [sg Hsg].
      destruct (lookup_lt_is_Some_2 tarea t ltac:(lia)) as [ta Hta].
      destruct (lookup_lt_is_Some_2 tlen t ltac:(lia)) as [tl Htl].
      pose proof (Forall_lookup_1 _ _ _ _ HPs HPt) as [Ha Hb]. simpl in Ha, Hb.
      destruct (lookup_lt_is_Some_2 pdia a Ha) as [da Hda].
      destruct (lookup_lt_is_Some_2 pdia b Hb) as [db Hdb].
      destruct (lookup_lt_is_Some_2 parea a ltac:(lia)) as [aa Haa].
      destruct (lookup_lt_is_Some_2 parea b ltac:(lia)) as [ab Hab].
      exists a, b, sg, ta, tl, aa, da, ab, db. split_and!; try done.
      rewrite (Kout _ _ Hk).
      assert (E1 : Ps.*1 !! t = Some a) by by rewrite list_lookup_fmap, HPt.
      assert (E2 : Ps.*2 !! t = Some b) by by rewrite list_lookup_fmap, HPt.
      unfold value, gt, gp1, gp2, to_inf, scalar_rdiv, scalar_mul_underflow, clamp.
      repeat (rewrite list_lookup_fmap || rewrite lookup_zip_with).
      rewrite Hsg, Hta, Htl, (Kp1 _ _ E1), (Kp2 _ _ E2), (Ka1 _ _ E1),
        (Ka2 _ _ E2), Hda, Hdb, Haa, Hab. done.
Qed.
(** C2.  For every edge [t] that the calculator returns, the value is
    [(1/g_edge + 1/g_node_a + 1/g_node_b)^-1], with [g_edge] the
    conductance of the edge body and [g_node_a], [g_node_b] those of the
    halves of its two end nodes; when a node half is [+inf] the value is
    the series combination of the remaining terms. *)
Theorem series_resistors_series_law :
  ∃ value,
    (series_resistors interpolate_data throats physics pore_conductivity
       pore_area pore_diameter throat_area throat_length (ph, net)).1
    = Returned value
    ∧ length value = length Ts
    ∧ ∀ k t, Ts !! k = Some t →
        ∃ a b sg ta tl aa da ab db,
          Ps !! t = Some (a, b) ∧ sigmat !! t = Some sg ∧
          tarea !! t = Some ta ∧ tlen !! t = Some tl ∧
          parea !! a = Some aa ∧ pdia !! a = Some da ∧
          parea !! b = Some ab ∧ pdia !! b = Some db ∧
          let g_edge := g_edge sg ta tl in
          let g_node_a := g_node sg aa da in
          let g_node_b := g_node sg ab db in
          value !! k =
            Some (finv (fadd (fadd (fdiv f1 g_edge) (fdiv f1 g_node_a))
                             (fdiv f1 g_node_b)))
          ∧ (g_node_a = PInf →
             value !! k = Some (finv (fadd (fdiv f1 g_edge) (fdiv f1 g_node_b))))
          ∧ (g_node_b = PInf →
             value !! k = Some (finv (fadd (fdiv f1 g_edge) (fdiv f1 g_node_a))))
          ∧ (g_node_a = PInf → g_node_b = PInf →
             value !! k = Some (finv (fdiv f1 g_edge))).
Proof.
  destruct series_resistors_edges as (value & Hrun & Hlen & Hedge).
  exists value. split_and!; [by rewrite Hrun|done|].
  intros k t Hk.
  destruct (Hedge k t Hk)
    as (a & b & sg & ta & tl & aa & da & ab & db & ? & ? & ? & ? & ? & ? & ? & ? & Hv).
  exists a, b, sg, ta, tl, aa, da, ab, db. cbv zeta.
  rewrite Hv. unfold series. split_and!; try done.
  - intros ->. by rewrite fdiv_1_PInf, fadd_0_r.
  - intros ->. by rewrite fdiv_1_PInf, fadd_0_r.
  - intros -> ->. by rewrite fdiv_1_PInf, !fadd_0_r.
Qed.

(** C3, as the code has it.  For every edge the calculator returns:
    the divisor built from a node diameter is half the diameter after
    every value [<= 0] has been replaced by [1e-12], and the divisor
    built from the edge length is the length after the same
    replacement.  The divisor of the edge is never zero.  The divisor
    of a node half is zero exactly when the diameter is positive and at
    most [2^-1074], so that half of it underflows to zero; the
    conductance of that node half is then [+inf].  The conductance of a
    node half that enters the series combination is [+inf] whenever the
    computed one is not strictly positive ([nan] and [-inf] included),
    and is strictly positive always. *)
Theorem series_resistors_clamps :
  ∃ value,
    (series_resistors interpolate_data throats physics pore_conductivity
       pore_area pore_diameter throat_area throat_length (ph, net)).1
    = Returned value
    ∧ ∀ k t, Ts !! k = Some t →
        ∃ a b sg ta tl aa da ab db div_a div_b div_t raw_a raw_b ga gb,
          Ps !! t = Some (a, b) ∧ sigmat !! t = Some sg ∧
          tarea !! t = Some ta ∧ tlen !! t = Some tl ∧
          parea !! a = Some aa ∧ pdia !! a = Some da ∧
          parea !! b = Some ab ∧ pdia !! b = Some db ∧
          div_a = fmul_underflow fhalf (if fle da f0 then floor_value else da) ∧
          div_b = fmul_underflow fhalf (if fle db f0 then floor_value else db) ∧
          div_t = (if fle tl f0 then floor_value else tl) ∧
          div_t ≠ f0 ∧
          (div_a = f0 ↔ ∃ d, da = Fin d ∧ (0 < d)%Qc ∧ (d ≤ least_positive)%Qc) ∧
          (div_b = f0 ↔ ∃ d, db = Fin d ∧ (0 < d)%Qc ∧ (d ≤ least_positive)%Qc) ∧
          raw_a = fdiv (fmul sg aa) div_a ∧
          raw_b = fdiv (fmul sg ab) div_b ∧
          ga = (if fgt raw_a f0 then raw_a else PInf) ∧
          gb = (if fgt raw_b f0 then raw_b else PInf) ∧
          fgt ga f0 = true ∧ fgt gb f0 = true ∧
          (div_a = f0 → ga = PInf) ∧ (div_b = f0 → gb = PInf) ∧
          value !! k =
            Some (finv (fadd (fadd (fdiv f1 (fdiv (fmul sg ta) div_t)) (fdiv f1 ga))
                             (fdiv f1 gb))).
Proof.
  destruct series_resistors_edges as (value & Hrun & Hlen & Hedge).
  exists value. split; [by rewrite Hrun|].
  intros k t Hk.
  destruct (Hedge k t Hk)
    as (a & b & sg & ta & tl & aa & da & ab & db & ? & ? & ? & ? & ? & ? & ? & ? & Hv).
  exists a, b, sg, ta, tl, aa, da, ab, db.
  exists (fmul_underflow fhalf (clamp1 da)), (fmul_underflow fhalf (clamp1 db)),
    (clamp1 tl).
  exists (fdiv (fmul sg aa) (fmul_underflow fhalf (clamp1 da))).
  exists (fdiv (fmul sg ab) (fmul_underflow fhalf (clamp1 db))).
  exists (g_node sg aa da), (g_node sg ab db).
  assert (Hinf : ∀ x, to_inf1 x = if fgt x f0 then x else PInf).
  { intros x. unfold to_inf1. by destruct (fgt x f0). }
  split_and!; try done.
  - apply clamp1_nonzero.
  - apply half_clamp1_zero.
  - apply half_clamp1_zero.
  - apply Hinf.
  - apply Hinf.
  - apply to_inf1_positive.
  - apply to_inf1_positive.
  - intros E. unfold g_node. rewrite E. apply to_inf1_fdiv_zero.
  - intros E. unfold g_node. rewrite E. apply to_inf1_fdiv_zero.
Qed.
End SeriesResistors.

Ltac example_inputs :=
  lazymatch goal with
  | |- Forall _ _ => repeat constructor; simpl; lia
  | |- _ ≠ _ => discriminate
  | |- _ => reflexivity
  end.

Lemma series_resistors_series_law_witness :
  ∃ value,
    (series_resistors Examples.ones Examples.both Examples.phys1
       "pore.electrical_conductivity" "pore.area" "pore.diameter"
       "throat.area" "throat.length" (Examples.conducting, Examples.net3)).1
    = Returned value
    ∧ length value = 2.
Proof.
  destruct (series_resistors_series_law Examples.ones Examples.both
              Examples.phys1 Examples.conducting Examples.conducting Examples.net3
              "pore.electrical_conductivity" "pore.area" "pore.diameter"
              "throat.area" "throat.length"
              [(0, 1); (1, 2)]
              [Examples.q 1 1; Examples.q 1 1; Examples.q 1 1]
              [Examples.q 1 1; Examples.q 2 1; Examples.q 0 1]
              [Examples.q 1 1; Examples.q 0 1; Examples.q (-1) 1]
              [Examples.q 1 1; Examples.q 1 1]
              [Examples.q 0 1; Examples.q 3 1])
    as (value & Hrun & Hlen & _); try example_inputs.
  exists value. split; [exact Hrun | exact Hlen].
Defined.

Lemma series_resistors_clamps_witness :
  ∃ value,
    (series_resistors Examples.ones Examples.both Examples.phys1
       "pore.electrical_conductivity" "pore.area" "pore.diameter"
       "throat.area" "throat.length" (Examples.conducting, Examples.net3)).1
    = Returned value
    ∧ ∃ x y, value = [Fin x; Fin y].
Proof.
  destruct (series_resistors_clamps Examples.ones Examples.both
              Examples.phys1 Examples.conducting Examples.conducting Examples.net3
              "pore.electrical_conductivity" "pore.area" "pore.diameter"
              "throat.area" "throat.length"
              [(0, 1); (1, 2)]
              [Examples.q 1 1; Examples.q 1 1; Examples.q 1 1]
              [Examples.q 1 1; Examples.q 2 1; Examples.q 0 1]
              [Examples.q 1 1; Examples.q 0 1; Examples.q (-1) 1]
              [Examples.q 1 1; Examples.q 1 1]
              [Examples.q 0 1; Examples.q 3 1])
    as (value & Hrun & _); try example_inputs.
  exists value. split; [exact Hrun|].
  vm_compute in Hrun. injection Hrun as <-. by do 2 eexists.
Defined.

(** C3, as stated, fails: a diameter of [2^-1074] is positive, so it is
    not replaced, and half of it is zero; the calculator divides by
    that zero and returns. *)
Lemma series_resistors_divides_by_zero :
  net_data Examples.tiny_pore !! "pore.diameter"
  = Some (AFloat [Fin least_positive; Examples.q 1 1; Examples.q 1 1])
  ∧ fle (Fin least_positive) f0 = false
  ∧ clamp1 (Fin least_positive) = Fin least_positive
  ∧ fmul_underflow fhalf (clamp1 (Fin least_positive)) = f0
  ∧ fdiv (fmul (Examples.q 1 1) (Examples.q 1 1))
      (fmul_underflow fhalf (clamp1 (Fin least_positive))) = PInf
  ∧ ∃ value,
      (series_resistors Examples.ones Examples.both Examples.phys1
         "pore.electrical_conductivity" "pore.area" "pore.diameter"
         "throat.area" "throat.length" (Examples.conducting, Examples.tiny_pore)).1
      = Returned value
      ∧ length value = 2.
Proof.
  assert (Hpos : fle (Fin least_positive) f0 = false).
  { apply bool_decide_eq_false, Qclt_not_le, least_positive_pos. }
  assert (Hkept : clamp1 (Fin least_positive) = Fin least_positive).
  { unfold clamp1. by rewrite Hpos. }
  assert (Hzero : fmul_underflow fhalf (clamp1 (Fin least_positive)) = f0).
  { rewrite Hkept. apply half_underflows; [apply least_positive_pos|].
    apply Qcle_refl. }
  split_and!; [reflexivity | exact Hpos | exact Hkept | exact Hzero | |].
  - rewrite Hzero. vm_compute. reflexivity.
  - eexists. split; [vm_compute; reflexivity | reflexivity].
Qed.

(** ** The phase constructor *)

Lemma attach_components_phases (components : list phase) (self : phase) :
  attach_components components self
  = set_phases (_phases self ++ (inherit_T_and_P (name self) <$> components)) self.
Proof.
  revert self. induction components as [|comp rest IH]; intros self; simpl.
  - rewrite app_nil_r. by destruct self.
  - rewrite IH. destruct self; simpl. unfold set_phases; simpl.
    by rewrite <- app_assoc.
Qed.

Lemma count_pore_all (net : network) (a : ndarray) :
  net_data net !! "pore.all" = Some a → Np net = ndarray_length a.
Proof. intros H. unfold Np, count_all. by rewrite H. Qed.

Lemma count_throat_all (net : network) (a : ndarray) :
  net_data net !! "throat.all" = Some a → Nt net = ndarray_length a.
Proof. intros H. unfold Nt, count_all. by rewrite H. Qed.

Lemma count_pore_key (Np Nt : nat) (n : string) :
  Core._count Np Nt ("pore." +:+ n) = Some Np.
Proof. unfold Core._count. by destruct n. Qed.

Lemma count_throat_key (Np Nt : nat) (n : string) :
  Core._count Np Nt ("throat." +:+ n) = Some Nt.
Proof. unfold Core._count. by destruct n. Qed.

Lemma on_self_pure (f : phase → phase) (self : phase) (net : network) :
  on_self (λ self, (Returned tt, f self)) (self, net) = (Returned tt, (f self, net)).
Proof. done. Qed.

Lemma self_setitem_array (prop : string) (a : ndarray) (self : phase) (net : network) :
  defined_in_physics prop (_physics self) = false →
  Core._count (Np net) (Nt net) prop = Some (ndarray_length a) →
  self_setitem prop (VArray a) (self, net)
  = (Returned tt, (set_data (<[prop := a]> (data self)) self, net)).
Proof.
  intros Hphys Hn. unfold self_setitem, on_self, __setitem__, Core.__setitem__.
  rewrite Hphys, Hn. by rewrite decide_True.
Qed.

Lemma self_setitem_float (prop : string) (x : float) (n : nat)
    (self : phase) (net : network) :
  defined_in_physics prop (_physics self) = false →
  Core._count (Np net) (Nt net) prop = Some n →
  self_setitem prop (VFloat x) (self, net)
  = (Returned tt,
     (set_data (<[prop := AFloat (replicate n x)]> (data self)) self, net)).
Proof.
  intros Hphys Hn. unfold self_setitem, on_self, __setitem__, Core.__setitem__.
  by rewrite Hphys, Hn.
Qed.

Lemma net_setitem_bool (key : string) (b : bool) (n : nat)
    (self : phase) (net : network) :
  Core._count (Np net) (Nt net) key = Some n →
  on_net (net_setitem key (VBool b)) (self, net)
  = (Returned tt,
     (self, Network (<[key := ABool (replicate n b)]> (net_data net)) (net_phases net))).
Proof.
  intros Hn. unfold on_net, net_setitem, Core.__setitem__. by rewrite Hn.
Qed.

Lemma new_returns (net : network) (components : list phase) (n : string)
    (pall tall : ndarray) :
  net_data net !! "pore.all" = Some pall →
  net_data net !! "throat.all" = Some tall →
  new net components n
  = (Returned (Phase n (fresh_data net pall tall) []
                 (inherit_T_and_P n <$> components) []
                 [(Debug, "Construct class")]),
     Network (<["throat." +:+ n := ABool (replicate (Nt net) true)]>
                (<["pore." +:+ n := ABool (replicate (Np net) true)]> (net_data net)))
             (net_phases net ++ [n])).
Proof.
  intros Hp Ht.
  pose proof (count_pore_all _ _ Hp) as HNp.
  pose proof (count_throat_all _ _ Ht) as HNt.
  unfold new, __init__.
  rewrite (bind_returned _ _ _ _ _ (on_self_pure _ _ _)).
  rewrite (bind_returned _ _ _ _ _ (on_self_pure _ _ _)).
  rewrite (bind_returned _ _ _ _ _ (on_net_getitem _ _ _ _ Hp)).
  erewrite bind_returned; last first.
  { apply self_setitem_array; [done|]. unfold Core._count. simpl. by rewrite HNp. }
  rewrite (bind_returned _ _ _ _ _ (on_net_getitem _ _ _ _ Ht)).
  erewrite bind_returned; last first.
  { apply self_setitem_array; [done|]. unfold Core._count. simpl. by rewrite HNt. }
  erewrite bind_returned; last first.
  { apply self_setitem_float; [done|]. unfold Core._count. simpl. reflexivity. }
  erewrite bind_returned; last first.
  { apply self_setitem_float; [done|]. unfold Core._count. simpl. reflexivity. }
  erewrite bind_returned; last by apply net_setitem_bool, count_pore_key.
  erewrite bind_returned; last by apply net_setitem_bool, count_throat_key.
  rewrite (bind_returned _ _ _ _ _ (on_self_pure _ _ _)).
  unfold on_net. simpl. rewrite attach_components_phases. simpl.
  replace (Nt (Network (<["pore." +:+ n := ABool (replicate (Np net) true)]>
                          (net_data net)) (net_phases net))) with (Nt net).
  - done.
  - unfold Nt, count_all. simpl. by rewrite lookup_insert_ne.
Qed.

(** C10.  On a network that has its masks ['pore.all'] and
    ['throat.all'] the constructor returns, and the new phase holds
    ['pore.temperature'] equal to 298.0 and ['pore.pressure'] equal to
    101325.0 at every pore, with no model registered on it; reading
    either key returns that array. *)
Theorem new_standard_conditions (net : network) (components : list phase)
    (n : string) (pall tall : ndarray) :
  net_data net !! "pore.all" = Some pall →
  net_data net !! "throat.all" = Some tall →
  ∃ self net',
    new net components n = (Returned self, net')
    ∧ _models self = []
    ∧ data self !! "pore.temperature" = Some (AFloat (replicate (Np net) f298))
    ∧ data self !! "pore.pressure" = Some (AFloat (replicate (Np net) f101325))
    ∧ (__getitem__ net' "pore.temperature" self).1
      = Returned (AFloat (replicate (Np net) f298))
    ∧ (__getitem__ net' "pore.pressure" self).1
      = Returned (AFloat (replicate (Np net) f101325)).
Proof.
  intros Hp Ht. eexists _, _. split; [by apply new_returns|].
  unfold __getitem__, Core.__getitem__, fresh_data. simpl.
  split_and!; try done.
Qed.

Lemma new_standard_conditions_witness :
  ∃ self net',
    new Examples.net3 [] "air" = (Returned self, net')
    ∧ data self !! "pore.temperature" = Some (AFloat [f298; f298; f298])
    ∧ data self !! "pore.pressure" = Some (AFloat [f101325; f101325; f101325]).
Proof.
  destruct (new_standard_conditions Examples.net3 [] "air"
              (ABool [true; true; true]) (ABool [true; true]))
    as (self & net' & Hnew & _ & HT & HP & _); [reflexivity..|].
  exists self, net'. split_and!; [exact Hnew | exact HT | exact HP].
Defined.

(** ** Writing and reading a property of a phase *)

Lemma defined_in_physics_true (prop : string) (l : list physics) (phys : physics) :
  phys ∈ l → is_Some (phys_data phys !! prop) → defined_in_physics prop l = true.
Proof.
  intros Hin Hsome. induction l as [|p l IH]; [by apply elem_of_nil in Hin|].
  simpl. destruct (decide (is_Some (phys_data p !! prop))); [done|].
  apply elem_of_cons in Hin as [->|Hin]; [done|by apply IH].
Qed.

(** C1, as the code has it.  When one of the physics objects of the
    phase has [prop] among its keys, [self[prop] = value] writes
    nothing: it logs an error and returns, raising no exception, and the
    dict of the phase is what it was. *)
Theorem setitem_owned_by_physics (net : network) (self : phase) (prop : string)
    (value : pyvalue) (phys : physics) :
  phys ∈ _physics self →
  is_Some (phys_data phys !! prop) →
  __setitem__ net prop value self
  = (Returned tt,
     logger Error
       (prop +:+ " is already defined in at least one associated Physics object")
       self)
  ∧ data (__setitem__ net prop value self).2 = data self.
Proof.
  intros Hin Hsome. unfold __setitem__.
  rewrite (defined_in_physics_true _ _ _ Hin Hsome). by destruct self.
Qed.

Lemma setitem_owned_by_physics_witness :
  data (__setitem__ Examples.net3 "pore.viscosity" (VFloat f1) Examples.wet).2
  = data Examples.wet.
Proof.
  apply (setitem_owned_by_physics Examples.net3 Examples.wet "pore.viscosity"
           (VFloat f1) Examples.viscous).
  - apply list_elem_of_here.
  - exists (AFloat [Examples.q 1 1000; Examples.q 2 1000]). reflexivity.
Defined.

(** C1, as stated, fails: the write to a key that a physics object
    owns returns normally instead of failing with OwnershipConflict. *)
Lemma setitem_conflict_is_not_raised :
  (__setitem__ Examples.net3 "pore.viscosity" (VFloat f1) Examples.wet).1
  = Returned tt
  ∧ (__setitem__ Examples.net3 "pore.viscosity" (VFloat f1) Examples.wet).1
    ≠ Raised OwnershipConflict.
Proof. split; [reflexivity | discriminate]. Qed.

(** C7.  For a key that is not in the dict of the phase, [self[key]]
    returns what the resolver composes from the physics objects and the
    dict of the phase is afterwards what it was; a read after a change
    of the physics objects composes from the new ones. *)
Theorem getitem_composes_and_keeps_no_copy (net : network) (self : phase)
    (key : string) :
  data self !! key = None →
  (__getitem__ net key self).1
  = Core._interleave_data (Np net) (Nt net) key (_physics self)
  ∧ data (__getitem__ net key self).2 = data self
  ∧ dom (data (__getitem__ net key self).2) = dom (data self)
  ∧ _physics (__getitem__ net key self).2 = _physics self
  ∧ ∀ sources,
      (__getitem__ net key (set_physics sources (__getitem__ net key self).2)).1
      = Core._interleave_data (Np net) (Nt net) key sources.
Proof.
  intros Hnone. unfold __getitem__.
  rewrite decide_False by (rewrite Hnone; by intros [? ?]).
  simpl. split_and!; try done.
  intros sources. rewrite decide_False by (rewrite Hnone; by intros [? ?]).
  done.
Qed.

Lemma getitem_composes_and_keeps_no_copy_witness :
  (__getitem__ Examples.net3 "pore.viscosity" Examples.wet).1
  = Returned (AFloat [Examples.q 1 1000; Examples.q 2 1000; NaN])
  ∧ data (__getitem__ Examples.net3 "pore.viscosity" Examples.wet).2
    = data Examples.wet.
Proof.
  destruct (getitem_composes_and_keeps_no_copy Examples.net3 Examples.wet
              "pore.viscosity") as (Hread & Hdata & _); [reflexivity|].
  split; [|exact Hdata]. rewrite Hread. reflexivity.
Defined.

(** ** What the operations leave of the network *)

Lemma keeps_bind {S A B} (R : S → S → Prop) `{!Transitive R}
    (m : M S A) (k : A → M S B) :
  keeps R m → (∀ a, keeps R (k a)) → keeps R (bind m k).
Proof.
  intros Hm Hk s. unfold bind. specialize (Hm s).
  destruct (m s) as [[a|e] s']; simpl in *; [|done].
  etrans; [exact Hm | apply Hk].
Qed.

Lemma keeps_lift {S A} (R : S → S → Prop) `{!Reflexive R} (o : outcome A) :
  keeps R (@lift S A o).
Proof. by intros s. Qed.

Global Instance same_arrays_except_refl keys : Reflexive (same_arrays_except keys).
Proof. by intros s k Hk. Qed.

Global Instance same_arrays_except_trans keys : Transitive (same_arrays_except keys).
Proof. intros s1 s2 s3 H12 H23 k Hk. by rewrite H23, H12. Qed.

Lemma keeps_on_self {A} keys (m : M phase A) :
  keeps (same_arrays_except keys) (on_self m).
Proof. intros [self net] k Hk. unfold on_self. by destruct (m self). Qed.

Lemma keeps_net_getitem keys (key : string) :
  keeps (same_arrays_except keys) (on_net (net_getitem key)).
Proof.
  intros [self net] k Hk. unfold on_net, net_getitem, Core.__getitem__.
  by destruct (net_data net !! key).
Qed.

Lemma keeps_self_setitem keys (prop : string) (value : pyvalue) :
  keeps (same_arrays_except keys) (self_setitem prop value).
Proof. intros [self net]. apply (keeps_on_self keys (__setitem__ net prop value)). Qed.

Lemma keeps_net_setitem keys (key : string) (value : pyvalue) :
  key ∈ keys → keeps (same_arrays_except keys) (on_net (net_setitem key value)).
Proof.
  intros Hkey [self net] k Hk.
  assert (key ≠ k) by (intros ->; done).
  unfold on_net, net_setitem, Core.__setitem__.
  destruct (Core._count _ _ key); [|done].
  destruct value; simpl; rewrite ?lookup_insert_ne; try done.
  destruct (decide _); simpl; by rewrite ?lookup_insert_ne.
Qed.

Lemma keeps_phase_getitem keys (key : string) :
  keeps (same_arrays_except keys) (phase_getitem key).
Proof. intros [self net]. apply (keeps_on_self keys (__getitem__ net key)). Qed.

Lemma keeps_net_floats keys (key : string) :
  keeps (same_arrays_except keys) (net_floats key).
Proof.
  apply keeps_bind; [apply _|apply keeps_net_getitem|].
  intros a. apply keeps_lift, _.
Qed.

Lemma keeps_net_assign_in_place keys (key : string) (a : list float) :
  key ∈ keys → keeps (same_arrays_except keys) (net_assign_in_place key a).
Proof.
  intros Hkey [self net] k Hk.
  assert (key ≠ k) by (intros ->; done).
  unfold net_assign_in_place, on_net. simpl. by rewrite lookup_insert_ne.
Qed.

Ltac keeps_step :=
  first
    [ apply keeps_lift; apply _
    | apply keeps_net_floats
    | apply keeps_net_getitem
    | apply keeps_phase_getitem
    | apply keeps_self_setitem
    | apply keeps_on_self
    | apply keeps_net_assign_in_place; set_solver
    | apply keeps_net_setitem; set_solver
    | apply keeps_bind; [apply _ | | intros ?] ].

Lemma keeps_series_resistors (interpolate_data : list float → list float)
    (throats : string → list nat) (physics : physics)
    (pore_conductivity pore_area pore_diameter throat_area throat_length : string) :
  keeps (same_arrays_except [throat_length])
    (series_resistors interpolate_data throats physics pore_conductivity
       pore_area pore_diameter throat_area throat_length).
Proof. unfold series_resistors. repeat (cbv zeta; keeps_step). Qed.

Lemma keeps_init (components : list phase) (n : string) :
  keeps (same_arrays_except ["pore." +:+ n; "throat." +:+ n])
    (__init__ components n).
Proof.
  unfold __init__. repeat (cbv zeta; keeps_step).
  intros [self net] k Hk. done.
Qed.

(** C4, as the code has it.  On a network with its masks the
    constructor of a phase named [n] returns; it writes the two labels
    ['pore.n'] and ['throat.n'] (all true) on the network and appends
    the phase to the network's list, and every other array stored on
    the network is what it was.  The series-resistors calculator leaves
    every array stored on the network under a key other than the
    throat-length key as it was. *)
Theorem network_arrays_kept (net : network) (components : list phase) (n : string)
    (pall tall : ndarray)
    (interpolate_data : list float → list float) (throats : string → list nat)
    (physics : physics) (ph : phase)
    (pore_conductivity pore_area pore_diameter throat_area throat_length : string)
    (k : string) :
  net_data net !! "pore.all" = Some pall →
  net_data net !! "throat.all" = Some tall →
  k ≠ "pore." +:+ n → k ≠ "throat." +:+ n → k ≠ throat_length →
  (∃ self net',
     new net components n = (Returned self, net')
     ∧ net_data net' !! ("pore." +:+ n) = Some (ABool (replicate (Np net) true))
     ∧ net_data net' !! ("throat." +:+ n) = Some (ABool (replicate (Nt net) true))
     ∧ net_phases net' = net_phases net ++ [n]
     ∧ net_data net' !! k = net_data net !! k)
  ∧ net_data (series_resistors interpolate_data throats physics pore_conductivity
                pore_area pore_diameter throat_area throat_length (ph, net)).2.2 !! k
    = net_data net !! k.
Proof.
  intros Hp Ht Hk1 Hk2 Hk3. split.
  - eexists _, _. split; [by apply new_returns|]. simpl.
    split_and!; [|by rewrite lookup_insert_eq|done|].
    + rewrite lookup_insert_ne by discriminate. by rewrite lookup_insert_eq.
    + by rewrite !lookup_insert_ne.
  - apply (keeps_series_resistors interpolate_data throats physics
             pore_conductivity pore_area pore_diameter throat_area throat_length
             (ph, net)).
    by rewrite list_elem_of_singleton.
Qed.

Lemma network_arrays_kept_witness :
  net_data (new Examples.net3 [] "air").2 !! "pore.area"
    = net_data Examples.net3 !! "pore.area"
  ∧ net_data (series_resistors Examples.ones Examples.both Examples.phys1
                "pore.electrical_conductivity" "pore.area" "pore.diameter"
                "throat.area" "throat.length"
                (Examples.conducting, Examples.net3)).2.2 !! "pore.area"
    = net_data Examples.net3 !! "pore.area".
Proof.
  destruct (network_arrays_kept Examples.net3 [] "air"
              (ABool [true; true; true]) (ABool [true; true])
              Examples.ones Examples.both Examples.phys1 Examples.conducting
              "pore.electrical_conductivity" "pore.area" "pore.diameter"
              "throat.area" "throat.length" "pore.area")
    as [(self & net' & Hnew & _ & _ & _ & Hkept) Hseries];
    [reflexivity | reflexivity | discriminate | discriminate | discriminate |].
  split; [|exact Hseries]. rewrite Hnew. exact Hkept.
Defined.

(** C4, as stated, fails: constructing a phase writes a label array on
    the network, and the calculator overwrites the zero entry of the
    throat length that the network stores. *)
Lemma network_arrays_are_written :
  net_data Examples.net3 !! "pore.air" = None
  ∧ net_data (new Examples.net3 [] "air").2 !! "pore.air"
    = Some (ABool [true; true; true])
  ∧ net_data Examples.net3 !! "throat.length"
    = Some (AFloat [Examples.q 0 1; Examples.q 3 1])
  ∧ net_data (series_resistors Examples.ones Examples.both Examples.phys1
                "pore.electrical_conductivity" "pore.area" "pore.diameter"
                "throat.area" "throat.length"
                (Examples.conducting, Examples.net3)).2.2 !! "throat.length"
    = Some (AFloat [floor_value; Examples.q 3 1]).
Proof. split_and!; reflexivity. Qed.

(** ** Ordered dicts and the registry of models *)

Lemma dict_get_set_eq {V} (d : list (string * V)) (k : string) (v : V) :
  Core.dict_get (Core.dict_set d k v) k = Some v.
Proof.
  induction d as [|[k' v'] d IH]; simpl.
  - by rewrite decide_True.
  - destruct (decide (k' = k)) as [->|Hne]; simpl.
    + by rewrite decide_True.
    + by rewrite decide_False.
Qed.

Lemma dict_get_set_ne {V} (d : list (string * V)) (k k' : string) (v : V) :
  k ≠ k' → Core.dict_get (Core.dict_set d k v) k' = Core.dict_get d k'.
Proof.
  intros Hne. induction d as [|[k0 v0] d IH]; simpl.
  - by rewrite decide_False.
  - destruct (decide (k0 = k)) as [->|Hne0]; simpl.
    + by rewrite !decide_False.
    + destruct (decide (k0 = k')); [done|apply IH].
Qed.

Lemma elem_of_dict_set_ne {V} (d : list (string * V)) (k k' : string) (v v' : V) :
  k ≠ k' → (k, v) ∈ d → (k, v) ∈ Core.dict_set d k' v'.
Proof.
  intros Hne. induction d as [|[k0 v0] d IH]; simpl.
  - by intros ?%elem_of_nil.
  - intros [Heq|Hin]%elem_of_cons.
    + simplify_eq. rewrite decide_False by done. apply list_elem_of_here.
    + destruct (decide (k0 = k')); apply list_elem_of_further; [done|by apply IH].
Qed.

Lemma core_regenerate_trace {St} (run_model : string → string → model → St → option St)
    (current : string → string → St → bool) (owner : string)
    (ms : list (string * model)) (kw : Core.regen_args) (st : St)
    (tr : list Core.event) :
  ∃ evs,
    (Core.regenerate run_model current owner ms kw (st, tr)).2.2 = tr ++ evs
    ∧ Forall (λ e, e.1 = owner) evs.
Proof.
  revert st tr. induction ms as [|[propname m] ms IH]; intros st tr; simpl.
  - exists []. by rewrite app_nil_r.
  - destruct (Core.selected kw propname && (Core.force kw || negb (current owner propname st))).
    + destruct (run_model owner propname m st) as [st'|]; simpl.
      * destruct (IH st' (tr ++ [(owner, propname)])) as (evs & -> & Hevs).
        exists ((owner, propname) :: evs). rewrite <- app_assoc. split; [done|].
        by constructor.
      * exists [(owner, propname)]. split; [done|]. by repeat constructor.
    + apply IH.
Qed.








(** ** Regeneration *)

Section RegenerationOrder.
Context {St : Type}.
Variable run_model : string → string → model → St → option St.
Variable current : string → string → St → bool.

Lemma regenerate_unfold (self : phase) (kw : Core.regen_args) :
  regenerate run_model current self kw
  = bind (regenerate_each run_model current (_phases self) kw)
         (λ _, Core.regenerate run_model current (name self) (_models self) kw).
Proof.
  destruct self as [n d ms ps phs lg]. simpl. f_equal.
  induction ps as [|item rest IH]; simpl; [done|]. by rewrite IH.
Qed.

Lemma names_below_unfold (self : phase) :
  names_below self = name self :: (_phases self ≫= names_below).
Proof. destruct self as [n d ms ps phs lg]. simpl. by f_equal. Qed.

Lemma regenerate_trace (self : phase) (kw : Core.regen_args) (st : St)
    (tr : list Core.event) :
  ∃ evs,
    (regenerate run_model current self kw (st, tr)).2.2 = tr ++ evs
    ∧ Forall (λ e, e.1 ∈ names_below self) evs.
Proof.
  revert st tr. induction self as [n d ms ps phs lg IH] using phase_rect_components.
  intros st tr. rewrite regenerate_unfold, names_below_unfold. simpl.
  assert (Heach : ∀ st tr, ∃ evs,
            (regenerate_each run_model current ps kw (st, tr)).2.2 = tr ++ evs
            ∧ Forall (λ e, e.1 ∈ ps ≫= names_below) evs).
  { clear st tr. induction IH as [|item rest Hitem _ IHrest]; intros st tr; simpl.
    - exists []. by rewrite app_nil_r.
    - unfold bind. destruct (Hitem st tr) as (evs1 & E1 & F1).
      destruct (regenerate run_model current item kw (st, tr))
        as [[[]|e] [st1 tr1]]; simpl in *; subst tr1.
      + destruct (IHrest st1 (tr ++ evs1)) as (evs2 & E2 & F2).
        exists (evs1 ++ evs2). rewrite E2, app_assoc. split; [done|].
        apply Forall_app. split.
        * eapply Forall_impl; [|exact F1]. intros e He. simpl in *.
          apply elem_of_app. by left.
        * eapply Forall_impl; [|exact F2]. intros e He. simpl in *.
          apply elem_of_app. by right.
      + exists evs1. split; [done|].
        eapply Forall_impl; [|exact F1]. intros e' He. simpl in *.
        apply elem_of_app. by left. }
  unfold bind. destruct (Heach st tr) as (evs1 & E1 & F1).
  destruct (regenerate_each run_model current ps kw (st, tr))
    as [[[]|e] [st1 tr1]]; simpl in *; subst tr1.
  - destruct (core_regenerate_trace run_model current n ms kw st1 (tr ++ evs1))
      as (evs2 & E2 & F2).
    exists (evs1 ++ evs2). rewrite E2, app_assoc. split; [done|].
    apply Forall_app. split.
    + eapply Forall_impl; [|exact F1]. intros e He. simpl in *.
      by apply list_elem_of_further.
    + eapply Forall_impl; [|exact F2]. intros e He. simpl in *. rewrite He.
      apply list_elem_of_here.
  - exists evs1. split; [done|].
    eapply Forall_impl; [|exact F1]. intros e' He. simpl in *.
    by apply list_elem_of_further.
Qed.

Lemma regenerate_each_trace (items : list phase) (kw : Core.regen_args) (st : St)
    (tr : list Core.event) :
  ∃ evs,
    (regenerate_each run_model current items kw (st, tr)).2.2 = tr ++ evs
    ∧ Forall (λ e, e.1 ∈ items ≫= names_below) evs.
Proof.
  revert st tr. induction items as [|item rest IH]; intros st tr; simpl.
  - exists []. by rewrite app_nil_r.
  - unfold bind. destruct (regenerate_trace item kw st tr) as (evs1 & E1 & F1).
    destruct (regenerate run_model current item kw (st, tr))
      as [[[]|e] [st1 tr1]]; simpl in *; subst tr1.
    + destruct (IH st1 (tr ++ evs1)) as (evs2 & E2 & F2).
      exists (evs1 ++ evs2). rewrite E2, app_assoc. split; [done|].
      apply Forall_app. split.
      * eapply Forall_impl; [|exact F1]. intros e He. simpl in *.
        apply elem_of_app. by left.
      * eapply Forall_impl; [|exact F2]. intros e He. simpl in *.
        apply elem_of_app. by right.
    + exists evs1. split; [done|].
      eapply Forall_impl; [|exact F1]. intros e' He. simpl in *.
      apply elem_of_app. by left.
Qed.

(** C6.  [regenerate] of a phase is the loop over its components, each
    regenerated in turn in the order of [_phases], followed by the
    regeneration of its own models, which is not reached when a
    component raises.  In the trace of invocations the ones of the
    components and of what is below them come first and the ones of the
    phase's own models come after all of them. *)
Theorem regenerate_components_first (self : phase) (kw : Core.regen_args)
    (st : St) (tr : list Core.event) :
  let components := regenerate_each run_model current (_phases self) kw (st, tr) in
  regenerate run_model current self kw (st, tr)
  = match components with
    | (Returned _, s') =>
        Core.regenerate run_model current (name self) (_models self) kw s'
    | (Raised e, s') => (Raised e, s')
    end
  ∧ (∀ item rest s,
       regenerate_each run_model current (item :: rest) kw s
       = match regenerate run_model current item kw s with
         | (Returned _, s') => regenerate_each run_model current rest kw s'
         | (Raised e, s') => (Raised e, s')
         end)
  ∧ ∃ of_components of_self,
      components.2.2 = tr ++ of_components
      ∧ (regenerate run_model current self kw (st, tr)).2.2
        = tr ++ of_components ++ of_self
      ∧ Forall (λ e, e.1 ∈ _phases self ≫= names_below) of_components
      ∧ Forall (λ e, e.1 = name self) of_self
      ∧ (components.1 ≠ Returned tt → of_self = []).
Proof.
  cbv zeta. rewrite regenerate_unfold. unfold bind.
  split; [|split].
  - by destruct (regenerate_each _ _ _ _ _) as [[[]|?] ?].
  - intros item rest s. simpl. unfold bind.
    by destruct (regenerate _ _ _ _ _) as [[[]|?] ?].
  - destruct (regenerate_each_trace (_phases self) kw st tr) as (evs1 & E1 & F1).
    destruct (regenerate_each run_model current (_phases self) kw (st, tr))
      as [[[]|e] [st1 tr1]]; simpl in *; subst tr1.
    + destruct (core_regenerate_trace run_model current (name self) (_models self)
                  kw st1 (tr ++ evs1)) as (evs2 & E2 & F2).
      exists evs1, evs2. rewrite E2, app_assoc. done.
    + exists evs1, []. by rewrite app_nil_r.
Qed.
End RegenerationOrder.

(** ** Binary and effective diffusivities *)

(** C8 at a pair with unlike molar diffusion volumes.  Whatever the
    molar diffusion volume [vB] of the second species and whatever the
    power function, [fuller_diffusivity] returns the correlation taken
    with the volume of the first species in both places. *)
Theorem fuller_diffusivity_takes_vA_twice :
  ∀ (fpow : float → float → float) (vB : float),
    mixtures.fuller_diffusivity fpow
      (Examples.mixture_data (Examples.q 1 2) (Examples.q 1 2))
      [("A", Examples.gas "A" (Examples.q 28 1) (Examples.q 1 1));
       ("B", Examples.gas "B" (Examples.q 32 1) vB)]
      "pore.molecular_weight" "pore.molar_diffusion_volume"
      "pore.temperature" "pore.pressure"
    = Returned
        [Fuller_correlation fpow (Examples.q 1 1) (Examples.q 100000 1)
           (Examples.q 28 1) (Examples.q 32 1) (Examples.q 1 1) (Examples.q 1 1)].
Proof. intros fpow vB. reflexivity. Qed.

Import mixtures.


Lemma fadd_0_l (x : float) : fadd f0 x = x.
Proof. destruct x; simpl; try done. f_equal. ring. Qed.

Lemma getitem_at_pore (d : store) (key : string) (l : list float) (n : nat) :
  getitem d key = Returned l → at_pore d key n = default NaN (l !! n).
Proof.
  unfold getitem, at_pore. destruct (d !! key) as [[]|]; simpl; try done.
  by intros [= ->].
Qed.

Lemma dict_get_foldl_other {V X} (key : X → string) (val : X → V)
    (todo : list X) (values0 : list (string * V)) (k : string) :
  k ∉ key <$> todo →
  Core.dict_get (foldl (λ vals x, Core.dict_set vals (key x) (val x)) values0 todo) k
  = Core.dict_get values0 k.
Proof.
  revert values0. induction todo as [|x todo IH]; intros values0 Hk; simpl; [done|].
  rewrite fmap_cons, not_elem_of_cons in Hk. destruct Hk as [Hne Hk].
  rewrite IH by done. by rewrite dict_get_set_ne.
Qed.

Lemma dict_get_foldl_set {V X} (key : X → string) (val : X → V)
    (todo : list X) (values0 : list (string * V)) (x : X) :
  NoDup (key <$> todo) → x ∈ todo →
  Core.dict_get (foldl (λ vals x, Core.dict_set vals (key x) (val x)) values0 todo)
    (key x)
  = Some (val x).
Proof.
  revert values0. induction todo as [|x0 todo IH]; intros values0 Hnd Hin; simpl.
  - by apply elem_of_nil in Hin.
  - rewrite fmap_cons in Hnd. inversion Hnd as [|? ? Hx0 Hnd']; subst.
    apply elem_of_cons in Hin as [->|Hin].
    + rewrite dict_get_foldl_other by done. apply dict_get_set_eq.
    + by apply IH.
Qed.

Lemma fmap_snd_imap_pair {A} (l : list A) : (imap pair l).*2 = l.
Proof.
  apply list_eq. intros i. rewrite list_lookup_fmap, list_lookup_imap.
  by destruct (l !! i).
Qed.

Lemma wilke_effective_two (a b d : Qc) :
  (a + b = 1)%Qc → d ≠ 0%Qc →
  (b ≠ 0%Qc → wilke_effective (Fin a) [(Fin b, Fin d)] = Fin d)
  ∧ (b = 0%Qc → wilke_effective (Fin a) [(Fin b, Fin d)] = NaN).
Proof.
  intros Hsum Hd.
  assert (Ha : (1 + - a = b)%Qc) by (rewrite <- Hsum; ring).
  unfold wilke_effective, wilke_sum. simpl.
  rewrite decide_False by done. simpl. rewrite Ha. split.
  - intros Hb.
    assert (Hq : (0 + b / d)%Qc ≠ 0%Qc).
    { intros E. apply Hb.
      replace b with ((0 + b / d) * d)%Qc by (by field).
      rewrite E. ring. }
    rewrite decide_False by done. f_equal. by field.
  - intros ->. rewrite decide_True; [by rewrite decide_True|]. by field.
Qed.

Section Wilke.
Variable fpow : float → float → float.
Variables (target : store) (mole_fraction : string) (L : nat).

Lemma denominator_sum (A : species) (i : nat) (js : list (nat * species))
    (denom : operand) :
  (∀ j B, (j, B) ∈ js → j ≠ i →
     ∃ y D,
       getitem target (mole_fraction +:+ "." +:+ sp_name B) = Returned y
       ∧ length y = L
       ∧ getitem (sp_data A) ("pore.D_in_" +:+ sp_name B) = Returned D
       ∧ length D = L) →
  shaped L denom →
  ∃ denom',
    denominator target mole_fraction A i js denom = Returned denom'
    ∧ shaped L denom'
    ∧ ∀ n, n < L →
        operand_at denom' n
        = foldl (λ acc yD, fadd acc (fdiv yD.1 yD.2)) (operand_at denom n)
            (partners_at target mole_fraction A i js n).
Proof.
  revert denom. induction js as [|[j B] js IH]; intros denom Hjs Hdenom; simpl.
  - by exists denom.
  - assert (Hjs' : ∀ j0 B0, (j0, B0) ∈ js → j0 ≠ i →
       ∃ y D,
         getitem target (mole_fraction +:+ "." +:+ sp_name B0) = Returned y
         ∧ length y = L
         ∧ getitem (sp_data A) ("pore.D_in_" +:+ sp_name B0) = Returned D
         ∧ length D = L).
    { intros j0 B0 Hin. apply Hjs. by apply list_elem_of_further. }
    destruct (decide (i ≠ j)) as [Hij|Hij].
    + destruct (Hjs j B (list_elem_of_here _ _) (not_eq_sym Hij))
        as (y & D & Hy & Ly & HD & LD).
      rewrite Hy, HD. simpl.
      rewrite elementwise_same_length by lia. simpl.
      set (t := zip_with fdiv y D).
      assert (Lt : length t = L) by (unfold t; rewrite length_zip_with; lia).
      assert (Hstep : ∃ denom1,
                inplace_add denom t = Returned denom1 ∧ shaped L denom1
                ∧ ∀ n, n < L →
                    operand_at denom1 n
                    = fadd (operand_at denom n)
                        (fdiv (default NaN (y !! n)) (default NaN (D !! n)))).
      { destruct denom as [x|d]; simpl in *.
        - eexists. split; [done|]. split; [simpl; by rewrite length_map|].
          intros n Hn. simpl. rewrite list_lookup_fmap. unfold t.
          rewrite lookup_zip_with.
          destruct (lookup_lt_is_Some_2 y n ltac:(lia)) as [yn ->].
          by destruct (lookup_lt_is_Some_2 D n ltac:(lia)) as [Dn ->].
        - rewrite decide_True by lia.
          eexists. split; [done|].
          split; [simpl; rewrite length_zip_with; lia|].
          intros n Hn. simpl. unfold t. rewrite !lookup_zip_with.
          destruct (lookup_lt_is_Some_2 d n ltac:(lia)) as [dn ->].
          destruct (lookup_lt_is_Some_2 y n ltac:(lia)) as [yn ->].
          by destruct (lookup_lt_is_Some_2 D n ltac:(lia)) as [Dn ->]. }
      destruct Hstep as (denom1 & -> & Hs1 & Hat1). simpl.
      destruct (IH denom1 Hjs' Hs1) as (denom' & -> & Hs' & Hat').
      exists denom'. split_and!; [done..|].
      intros n Hn. rewrite (Hat' n Hn), (Hat1 n Hn).
      unfold partners_at. rewrite filter_cons_True by (simpl; congruence).
      simpl. by rewrite (getitem_at_pore _ _ _ n Hy), (getitem_at_pore _ _ _ n HD).
    + destruct (IH denom Hjs' Hdenom) as (denom' & -> & Hs' & Hat').
      exists denom'. split_and!; [done..|].
      intros n Hn. rewrite (Hat' n Hn).
      unfold partners_at. rewrite filter_cons_False; [done|].
      simpl. intros ?. apply Hij. congruence.
Qed.

Variable comps : list species.
Hypothesis Hy : ∀ i A, comps !! i = Some A →
  ∃ y, getitem target (mole_fraction +:+ "." +:+ sp_name A) = Returned y
       ∧ length y = L.
Hypothesis HD : ∀ i j A B, comps !! i = Some A → comps !! j = Some B → i ≠ j →
  ∃ D, getitem (sp_data A) ("pore.D_in_" +:+ sp_name B) = Returned D
       ∧ length D = L.

Lemma effective_one (i : nat) (A : species) :
  comps !! i = Some A →
  ∃ yA denom,
    getitem target (mole_fraction +:+ "." +:+ sp_name A) = Returned yA
    ∧ denominator target mole_fraction A i (imap pair comps) (Sc f0) = Returned denom
    ∧ broadcast fdiv (Arr (map (fsub f1) yA)) denom
      = Returned (effective_array target mole_fraction L comps i A).
Proof.
  intros HA. destruct (Hy i A HA) as (yA & HyA & LyA).
  destruct (denominator_sum A i (imap pair comps) (Sc f0)) as (denom & Hden & Hs & Hat).
  { intros j B Hin Hji. apply elem_of_lookup_imap in Hin as (j' & B' & [= -> ->] & HB).
    destruct (Hy j' B' HB) as (y & Hy' & Ly).
    destruct (HD i j' A B' HA HB (not_eq_sym Hji)) as (D & HD' & LD).
    by exists y, D. }
  { done. }
  exists yA, denom. split_and!; [done..|].
  assert (Hpoint : ∀ n, n < L →
            fdiv (fsub f1 (default NaN (yA !! n))) (operand_at denom n)
            = wilke_effective (at_pore target (mole_fraction +:+ "." +:+ sp_name A) n)
                (partners_at target mole_fraction A i (imap pair comps) n)).
  { intros n Hn. unfold wilke_effective, wilke_sum.
    by rewrite (Hat n Hn), (getitem_at_pore _ _ _ n HyA). }
  unfold effective_array. destruct denom as [x|d]; simpl in *.
  - do 2 f_equal. apply list_eq. intros n.
    rewrite !list_lookup_fmap.
    destruct (decide (n < L)) as [Hn|Hn].
    + rewrite lookup_seq_lt by done. simpl. rewrite <- (Hpoint n Hn).
      by destruct (lookup_lt_is_Some_2 yA n ltac:(lia)) as [yn ->].
    + rewrite lookup_seq_ge by lia. by rewrite (lookup_ge_None_2 yA n) by lia.
  - rewrite elementwise_same_length by (rewrite length_map; lia).
    do 2 f_equal. apply list_eq. intros n.
    rewrite lookup_zip_with, !list_lookup_fmap.
    destruct (decide (n < L)) as [Hn|Hn].
    + rewrite lookup_seq_lt by done. simpl. rewrite <- (Hpoint n Hn).
      destruct (lookup_lt_is_Some_2 yA n ltac:(lia)) as [yn ->].
      by destruct (lookup_lt_is_Some_2 d n ltac:(lia)) as [dn ->].
    + rewrite lookup_seq_ge by lia. by rewrite (lookup_ge_None_2 yA n) by lia.
Qed.

Lemma effective_all (todo : list (nat * species)) (values0 : list (string * operand)) :
  (∀ i A, (i, A) ∈ todo → comps !! i = Some A) →
  effective target mole_fraction comps todo values0
  = Returned (foldl (λ vals iA, Core.dict_set vals (sp_name iA.2)
                                  (effective_array target mole_fraction L comps iA.1 iA.2))
                values0 todo).
Proof.
  revert values0. induction todo as [|[i A] todo IH]; intros values0 Htodo; simpl.
  - done.
  - destruct (effective_one i A) as (yA & denom & -> & -> & Hv).
    { apply Htodo, list_elem_of_here. }
    unfold obind. simpl in Hv. rewrite Hv. apply IH.
    intros i' A' Hin. by apply Htodo, list_elem_of_further.
Qed.

Hypothesis Hnames : NoDup (sp_name <$> comps).
Variables molecular_weight molar_diffusion_volume temperature pressure : string.
Variable comps0 : list species.
Hypothesis Hpairs :
  for_each (seq 0 (length comps0)) (λ i,
    for_each (seq 0 (length comps0)) (λ j,
      pair_body fpow target molecular_weight molar_diffusion_volume
        temperature pressure i j)) comps0
  = (Returned tt, comps).

(** C9, as the code has it.  Let the first part of
    [wilke_fuller_diffusivity] have stored the binary diffusivities,
    leaving the components [comps], whose names differ, with all mole
    fractions and diffusivities arrays over the same [L] pores.  Then
    the function returns, for each component [A], the array whose value
    at every pore is [(1 - y_A) / Σ (y_B / D_AB)], the sum over the
    other components.  With two components whose fractions [y_A] and
    [y_B] add up to one at a pore where [D_AB] is finite and not zero,
    that value is [D_AB] when [y_B] is not zero, and [nan] when it is. *)
Theorem wilke_effective_diffusivity :
  ∃ values,
    wilke_fuller_diffusivity fpow target mole_fraction molecular_weight
      molar_diffusion_volume temperature pressure comps0
    = (Returned values, comps)
    ∧ (∀ i A, comps !! i = Some A →
         ∃ v, Core.dict_get values (sp_name A) = Some (Arr v)
              ∧ length v = L
              ∧ ∀ n, n < L →
                  v !! n
                  = Some (wilke_effective
                            (at_pore target (mole_fraction +:+ "." +:+ sp_name A) n)
                            (partners_at target mole_fraction A i (imap pair comps) n)))
    ∧ (length comps = 2 →
       ∀ i j A B, comps !! i = Some A → comps !! j = Some B → i ≠ j →
         ∀ n a b d, n < L →
           at_pore target (mole_fraction +:+ "." +:+ sp_name A) n = Fin a →
           at_pore target (mole_fraction +:+ "." +:+ sp_name B) n = Fin b →
           (a + b = 1)%Qc →
           at_pore (sp_data A) ("pore.D_in_" +:+ sp_name B) n = Fin d →
           d ≠ 0%Qc →
           ∃ v, Core.dict_get values (sp_name A) = Some (Arr v)
                ∧ (b ≠ 0%Qc → v !! n = Some (Fin d))
                ∧ (b = 0%Qc → v !! n = Some NaN)).
Proof.
  set (values := foldl (λ vals iA, Core.dict_set vals (sp_name iA.2)
                                     (effective_array target mole_fraction L comps iA.1 iA.2))
                   [] (imap pair comps)).
  assert (Hgen : ∀ i A, comps !! i = Some A →
            ∃ v, Core.dict_get values (sp_name A) = Some (Arr v)
              ∧ length v = L
              ∧ ∀ n, n < L →
                  v !! n
                  = Some (wilke_effective
                            (at_pore target (mole_fraction +:+ "." +:+ sp_name A) n)
                            (partners_at target mole_fraction A i (imap pair comps) n))).
  { intros i A HA. eexists. split_and!.
    - apply (dict_get_foldl_set (λ iA : nat * species, sp_name iA.2)
               (λ iA, effective_array target mole_fraction L comps iA.1 iA.2) _ _ (i, A)).
      + replace ((λ iA : nat * species, sp_name iA.2) <$> imap pair comps)
          with (sp_name <$> comps); [exact Hnames|].
        rewrite <- (fmap_snd_imap_pair comps) at 1.
        by rewrite <- list_fmap_compose.
      + apply elem_of_lookup_imap. by exists i, A.
    - by rewrite length_fmap, length_seq.
    - intros n Hn. rewrite list_lookup_fmap, lookup_seq_lt by done. done. }
  exists values. split_and!.
  - unfold wilke_fuller_diffusivity, bind, get_state, lift. rewrite Hpairs.
    f_equal. apply effective_all.
    intros i A Hin. by apply elem_of_lookup_imap in Hin as (i' & A' & [= -> ->] & ?).
  - exact Hgen.
  - intros Hlen i j A B HA HB Hij n a b d Hn Hya Hyb Hsum HDab Hd.
    destruct (Hgen i A HA) as (v & Hv & Lv & Hat). exists v. split; [done|].
    rewrite (Hat n Hn), Hya.
    assert (Hpartners : partners_at target mole_fraction A i (imap pair comps) n
                        = [(Fin b, Fin d)]).
    { destruct comps as [|c0 [|c1 [|]]]; try done.
      destruct i as [|[|]], j as [|[|]]; try done; simpl in *; simplify_eq;
        unfold partners_at; simpl;
        repeat (rewrite filter_cons_True by (simpl; lia)
                || rewrite filter_cons_False by (simpl; lia));
        rewrite ?filter_nil; simpl; by rewrite Hyb, HDab. }
    rewrite Hpartners.
    destruct (wilke_effective_two a b d Hsum Hd) as [H1 H2].
    split; intros Hb; f_equal; auto.
Qed.
End Wilke.

Ltac exact_rational :=
  lazymatch goal with
  | |- Fin _ = Fin _ => f_equal; apply Qc_is_canon; reflexivity
  | |- @eq Qc _ _ => apply Qc_is_canon; reflexivity
  | |- _ ≠ _ =>
      let E := fresh in
      intros E; apply (f_equal this) in E; vm_compute in E; discriminate
  end.

Lemma wilke_effective_diffusivity_witness :
  ∃ values v,
    wilke_fuller_diffusivity Examples.pow_exact
      (Examples.mixture_data (Examples.q 1 4) (Examples.q 3 4))
      "pore.mole_fraction" "pore.molecular_weight" "pore.molar_diffusion_volume"
      "pore.temperature" "pore.pressure" Examples.two_gases
    = (Returned values, Examples.two_gases_after)
    ∧ Core.dict_get values "A" = Some (Arr v)
    ∧ v !! 0 = Some Examples.D_AB.
Proof.
  destruct (wilke_effective_diffusivity Examples.pow_exact
              (Examples.mixture_data (Examples.q 1 4) (Examples.q 3 4))
              "pore.mole_fraction" 1 Examples.two_gases_after)
    with (molecular_weight := "pore.molecular_weight")
         (molar_diffusion_volume := "pore.molar_diffusion_volume")
         (temperature := "pore.temperature") (pressure := "pore.pressure")
         (comps0 := Examples.two_gases)
    as (values & Hrun & _ & Htwo).
  - intros [|[|i]] A HA; simpl in HA; try (by rewrite lookup_nil in HA);
      simplify_eq; eexists; split; reflexivity.
  - intros [|[|i]] [|[|j]] A B HA HB Hij; simpl in HA, HB;
      try (by rewrite lookup_nil in HA); try (by rewrite lookup_nil in HB);
      simplify_eq; eexists; split; reflexivity.
  - apply (bool_decide_unpack _). vm_compute. exact I.
  - reflexivity.
  - destruct (Htwo eq_refl 0 1 Examples.gas_A_after Examples.gas_B_after
                eq_refl eq_refl
                ltac:(discriminate) 0 (Q2Qc (1 # 4)) (Q2Qc (3 # 4))
                (Q2Qc (143 # 4000000000)))
      as (v & Hv & Hpos & _);
      [lia | reflexivity | reflexivity | exact_rational | reflexivity
      | exact_rational | ].
    exists values, v. split_and!; [exact Hrun | exact Hv |].
    apply Hpos. exact_rational.
Defined.

(** C9, as stated, fails for two components: at a pore where the
    fractions are 1 and 0, which add up to one, the effective
    diffusivity of the first component is [nan], not the binary
    diffusivity stored for the pair. *)
Lemma wilke_two_components_pure_pore :
  fadd (Examples.q 1 1) (Examples.q 0 1) = f1
  ∧ ∃ values comps A,
      wilke_fuller_diffusivity Examples.pow_exact
        (Examples.mixture_data (Examples.q 1 1) (Examples.q 0 1))
        "pore.mole_fraction" "pore.molecular_weight" "pore.molar_diffusion_volume"
        "pore.temperature" "pore.pressure" Examples.two_gases
      = (Returned values, comps)
      ∧ Core.dict_get values "A" = Some (Arr [NaN])
      ∧ comps !! 0 = Some A
      ∧ at_pore (sp_data A) "pore.D_in_B" 0 = Examples.D_AB
      ∧ NaN ≠ Examples.D_AB.
Proof.
  split; [vm_compute; exact_rational|].
  eexists _, _, _. split_and!.
  - vm_compute. reflexivity.
  - reflexivity.
  - reflexivity.
  - vm_compute. exact_rational.
  - discriminate.
Qed.

(** * Further properties of the code *)

(** ** The health checks *)

Lemma count_float_succ (c : nat) : fadd (count_float c) f1 = count_float (S c).
Proof.
  unfold count_float, f1. simpl fadd. f_equal. apply Qc_is_canon.
  rewrite Nat2Z.inj_succ. unfold Z.succ. rewrite inject_Z_plus.
  unfold Qcplus, Q2Qc. simpl this. rewrite !Qred_correct. reflexivity.
Qed.

Lemma count_float_gt_1 (c : nat) : fgt (count_float c) f1 = true ↔ 1 < c.
Proof.
  unfold count_float, f1. simpl. rewrite bool_decide_eq_true.
  unfold Qclt. simpl. rewrite (Qred_correct (inject_Z (Z.of_nat c))).
  change (Qred 1) with (inject_Z 1).
  rewrite <- (Zlt_Qlt 1 (Z.of_nat c)). lia.
Qed.

Lemma count_float_eq_0 (c : nat) : feq (count_float c) f0 = true ↔ c = 0.
Proof.
  unfold count_float, f0. simpl. rewrite bool_decide_eq_true. split.
  - intros H. apply (f_equal this) in H. simpl in H.
    assert (E : (inject_Z (Z.of_nat c) == inject_Z 0)%Q).
    { rewrite <- (Qred_correct (inject_Z (Z.of_nat c))). rewrite H. reflexivity. }
    unfold Qeq in E. simpl in E. lia.
  - intros ->. by apply Qc_is_canon.
Qed.

Lemma elem_of_where (test : float → bool) (a : list float) (i : nat) :
  i ∈ where_ test a ↔ ∃ x, a !! i = Some x ∧ test x = true.
Proof.
  unfold where_. rewrite list_elem_of_fmap. split.
  - intros ([j x] & -> & Hin). apply list_elem_of_filter in Hin as [Ht Hin].
    apply elem_of_lookup_imap in Hin as (j' & x' & [= -> ->] & Hx). by exists x'.
  - intros (x & Hx & Ht). exists (i, x). split; [done|].
    apply list_elem_of_filter. split; [done|].
    apply elem_of_lookup_imap. by exists i, x.
Qed.

Lemma getitem_stored (net : network) (key : string) (self : phase) (a : ndarray) :
  data self !! key = Some a → __getitem__ net key self = (Returned a, self).
Proof.
  intros H. unfold __getitem__, Core.__getitem__.
  rewrite decide_True by (rewrite H; by eexists). rewrite H. by destruct self.
Qed.

Lemma count_claims_masks (net : network) (self : phase) (NP NT : nat)
    (items : list string) (Ptemp Ttemp : list float) (cp ct : nat → nat) :
  (∀ item, item ∈ items →
     ∃ mp mt,
       data self !! ("pore." +:+ item) = Some (ABool mp) ∧ length mp = NP
       ∧ data self !! ("throat." +:+ item) = Some (ABool mt) ∧ length mt = NT) →
  length Ptemp = NP → length Ttemp = NT →
  (∀ i, i < NP → Ptemp !! i = Some (count_float (cp i))) →
  (∀ i, i < NT → Ttemp !! i = Some (count_float (ct i))) →
  ∃ P' T',
    count_claims net items Ptemp Ttemp self = (Returned (P', T'), self)
    ∧ length P' = NP ∧ length T' = NT
    ∧ (∀ i, i < NP →
         P' !! i = Some (count_float (cp i + claims_at self "pore." items i)))
    ∧ (∀ i, i < NT →
         T' !! i = Some (count_float (ct i + claims_at self "throat." items i))).
Proof.
  revert Ptemp Ttemp cp ct.
  induction items as [|item rest IH]; intros Ptemp Ttemp cp ct Hmasks LP LT HP HT.
  - exists Ptemp, Ttemp. simpl. split_and!; try done.
    + intros i Hi. rewrite Nat.add_0_r. by apply HP.
    + intros i Hi. rewrite Nat.add_0_r. by apply HT.
  - destruct (Hmasks item (list_elem_of_here _ _)) as (mp & mt & Hmp & Lmp & Hmt & Lmt).
    simpl count_claims.
    rewrite (bind_returned _ _ _ _ _ (getitem_stored net _ self _ Hmp)).
    rewrite (bind_returned _ _ _ _ _ (getitem_stored net _ self _ Hmt)).
    unfold bump. rewrite !decide_True by lia.
    rewrite (bind_lift _ _ _ _ eq_refl), (bind_lift _ _ _ _ eq_refl).
    assert (Hstep : ∀ (dom : string) (N : nat) (temp : list float) (m : list bool)
                      (c : nat → nat),
              data self !! (dom +:+ item) = Some (ABool m) →
              length m = N → length temp = N →
              (∀ i, i < N → temp !! i = Some (count_float (c i))) →
              ∀ i, i < N →
                zip_with (λ x (b : bool), if b then fadd x f1 else x) temp m !! i
                = Some (count_float
                          (c i + (if mask_at self (dom +:+ item) i then 1 else 0)))).
    { intros dom N temp m c Hm Lm Lt Ht i Hi.
      rewrite lookup_zip_with, (Ht i Hi).
      destruct (lookup_lt_is_Some_2 m i ltac:(lia)) as [b Hb]. rewrite Hb.
      unfold mask_at. rewrite Hm, Hb. cbn -[count_float fadd f1]. destruct b.
      - rewrite count_float_succ. do 2 f_equal. lia.
      - do 2 f_equal. lia. }
    destruct (IH (zip_with (λ x (b : bool), if b then fadd x f1 else x) Ptemp mp)
                (zip_with (λ x (b : bool), if b then fadd x f1 else x) Ttemp mt)
                (λ i, cp i + (if mask_at self ("pore." +:+ item) i then 1 else 0))
                (λ i, ct i + (if mask_at self ("throat." +:+ item) i then 1 else 0)))
      as (P' & T' & Hrun & LP' & LT' & HP' & HT').
    + intros item' Hin. apply Hmasks. by apply list_elem_of_further.
    + rewrite length_zip_with. lia.
    + rewrite length_zip_with. lia.
    + by apply (Hstep "pore." NP).
    + by apply (Hstep "throat." NT).
    + exists P', T'. split_and!; try done.
      * intros i Hi. rewrite (HP' i Hi). do 2 f_equal. unfold claims_at.
        destruct (mask_at self ("pore." +:+ item) i) eqn:E.
        -- rewrite filter_cons_True by done. simpl. lia.
        -- rewrite filter_cons_False by (rewrite E; done). lia.
      * intros i Hi. rewrite (HT' i Hi). do 2 f_equal. unfold claims_at.
        destruct (mask_at self ("throat." +:+ item) i) eqn:E.
        -- rewrite filter_cons_True by done. simpl. lia.
        -- rewrite filter_cons_False by (rewrite E; done). lia.
Qed.

(** X1.  When every attached physics object has its two masks stored
    on the phase, one entry per pore and per throat of the network,
    [check_physics_health] returns and leaves the phase as it was; a
    pore is listed as overlapping exactly when more than one physics
    object claims it, and as undefined exactly when none does; likewise
    for the throats. *)
Theorem check_physics_health_counts (net : network) (self : phase) :
  (∀ item, item ∈ physics_names self →
     ∃ mp mt,
       data self !! ("pore." +:+ item) = Some (ABool mp) ∧ length mp = Np net
       ∧ data self !! ("throat." +:+ item) = Some (ABool mt) ∧ length mt = Nt net) →
  ∃ health op up ot ut,
    check_physics_health net self = (Returned health, self)
    ∧ Core.dict_get health "overlapping_pores" = Some op
    ∧ Core.dict_get health "undefined_pores" = Some up
    ∧ Core.dict_get health "overlapping_throats" = Some ot
    ∧ Core.dict_get health "undefined_throats" = Some ut
    ∧ (∀ i, i ∈ op ↔ i < Np net ∧ 1 < claims_at self "pore." (physics_names self) i)
    ∧ (∀ i, i ∈ up ↔ i < Np net ∧ claims_at self "pore." (physics_names self) i = 0)
    ∧ (∀ i, i ∈ ot ↔ i < Nt net ∧ 1 < claims_at self "throat." (physics_names self) i)
    ∧ (∀ i, i ∈ ut ↔ i < Nt net ∧ claims_at self "throat." (physics_names self) i = 0).
Proof.
  intros Hmasks.
  destruct (count_claims_masks net self (Np net) (Nt net) (physics_names self)
              (replicate (Np net) f0) (replicate (Nt net) f0) (λ _, 0) (λ _, 0))
    as (P' & T' & Hrun & LP' & LT' & HP' & HT'); try done.
  - by rewrite length_replicate.
  - by rewrite length_replicate.
  - intros i Hi. by rewrite lookup_replicate_2.
  - intros i Hi. by rewrite lookup_replicate_2.
  - eexists _, _, _, _, _. split.
    { unfold check_physics_health. unfold bind at 1. simpl.
      unfold bind. rewrite Hrun. reflexivity. }
    simpl.
    assert (Hchar : ∀ (N : nat) (temp : list float) (c : nat → nat),
              length temp = N →
              (∀ i, i < N → temp !! i = Some (count_float (c i))) →
              (∀ i, i ∈ where_ (λ x, fgt x f1) temp ↔ i < N ∧ 1 < c i)
              ∧ (∀ i, i ∈ where_ (λ x, feq x f0) temp ↔ i < N ∧ c i = 0)).
    { intros N temp c Lt Ht. split; intros i; rewrite elem_of_where; split.
      - intros (x & Hx & Hgt).
        assert (Hi : i < N) by (rewrite <- Lt; by eapply lookup_lt_Some).
        rewrite (Ht i Hi) in Hx. simplify_eq. split; [done|].
        by apply count_float_gt_1.
      - intros [Hi Hc]. eexists. split; [by apply Ht|]. by apply count_float_gt_1.
      - intros (x & Hx & Heq).
        assert (Hi : i < N) by (rewrite <- Lt; by eapply lookup_lt_Some).
        rewrite (Ht i Hi) in Hx. simplify_eq. split; [done|].
        by apply count_float_eq_0.
      - intros [Hi Hc]. eexists. split; [by apply Ht|]. by apply count_float_eq_0. }
    destruct (Hchar (Np net) P' _ LP' HP') as [H1 H2].
    destruct (Hchar (Nt net) T' _ LT' HT') as [H3 H4].
    split_and!; try done.
Qed.

Lemma check_physics_health_counts_witness :
  ∃ health op up,
    check_physics_health Examples.net5 Examples.two_regions
    = (Returned health, Examples.two_regions)
    ∧ Core.dict_get health "overlapping_pores" = Some op
    ∧ Core.dict_get health "undefined_pores" = Some up
    ∧ 2 ∈ op ∧ 2 ∉ up.
Proof.
  destruct (check_physics_health_counts Examples.net5 Examples.two_regions)
    as (health & op & up & ot & ut & Hrun & Hop & Hup & _ & _ & Hov & Hun & _).
  { intros item Hin. simpl in Hin.
    apply elem_of_cons in Hin as [->|Hin];
      [|apply list_elem_of_singleton in Hin as ->];
      eexists _, _; split_and!; reflexivity. }
  exists health, op, up. split_and!; [exact Hrun | exact Hop | exact Hup | |].
  - apply Hov. split; [vm_compute; lia|]. vm_compute. lia.
  - intros [_ H]%Hun. vm_compute in H. discriminate.
Defined.

Lemma where_sorted_from (test : float → bool) (a : list float) (k : nat) :
  let l := (filter (λ ix : nat * float, test ix.2 = true)
              (imap (λ i x, (k + i, x)) a)).*1 in
  StronglySorted lt l ∧ Forall (λ i : nat, (k ≤ i)%nat) l.
Proof.
  revert k. induction a as [|x a IH]; intros k; simpl.
  - split; constructor.
  - rewrite (imap_ext _ (λ i y, (S k + i, y))) by (intros; simpl; f_equal; lia).
    destruct (IH (S k)) as [Hsorted Hge].
    destruct (decide (test x = true)) as [Hx|Hx].
    + rewrite filter_cons_True by done. simpl. split.
      * constructor; [done|]. eapply Forall_impl; [|exact Hge].
        intros i Hi. simpl in *. lia.
      * constructor; [lia|]. eapply Forall_impl; [|exact Hge].
        intros i Hi. simpl in *. lia.
    + rewrite filter_cons_False by done. split; [done|].
      eapply Forall_impl; [|exact Hge]. intros i Hi. simpl in *. lia.
Qed.

Lemma where_sorted (test : float → bool) (a : list float) :
  StronglySorted lt (where_ test a).
Proof. apply (where_sorted_from test a 0). Qed.

Lemma bump_length (a : list float) (ind : ndarray) (a' : list float) :
  bump a ind = Returned a' → length a' = length a.
Proof.
  unfold bump. destruct ind as [l|m|l].
  - done.
  - destruct (decide _); [|done]. intros [= <-]. rewrite length_zip_with. lia.
  - destruct (decide _); [|done]. intros [= <-]. by rewrite length_imap.
Qed.

Lemma count_claims_length (net : network) (items : list string)
    (Ptemp Ttemp P' T' : list float) (self self' : phase) :
  count_claims net items Ptemp Ttemp self = (Returned (P', T'), self') →
  length P' = length Ptemp ∧ length T' = length Ttemp.
Proof.
  revert Ptemp Ttemp self.
  induction items as [|item rest IH]; intros Ptemp Ttemp self; simpl.
  - by intros [= <- <- <-].
  - unfold bind, lift.
    destruct (__getitem__ net ("pore." +:+ item) self) as [[Pind|?] self1]; [|done].
    destruct (__getitem__ net ("throat." +:+ item) self1) as [[Tind|?] self2]; [|done].
    destruct (bump Ptemp Pind) as [P1|] eqn:EP; [|done].
    destruct (bump Ttemp Tind) as [T1|] eqn:ET; [|done].
    intros Hrest. apply IH in Hrest as [-> ->].
    split; by eapply bump_length.
Qed.

Lemma overlap_excludes_undefined (x : float) :
  fgt x f1 = true → feq x f0 = true → False.
Proof.
  destruct x as [q| | |]; simpl; try done.
  intros Hgt%bool_decide_eq_true ->%bool_decide_eq_true.
  by apply (Qclt_not_le _ _ Hgt).
Qed.

Global Instance logged_only_refl : Reflexive logged_only.
Proof. by intros s. Qed.

Global Instance logged_only_trans : Transitive logged_only.
Proof.
  intros s1 s2 s3 (?&?&?&?&?) (?&?&?&?&?).
  split_and!; by etrans.
Qed.

Lemma keeps_getitem_logged (net : network) (key : string) :
  keeps logged_only (__getitem__ net key).
Proof.
  intros self. unfold __getitem__, Core.__getitem__.
  destruct (decide _) as [H|H]; [|done].
  by destruct (data self !! key).
Qed.

Lemma keeps_count_claims (net : network) (items : list string)
    (Ptemp Ttemp : list float) :
  keeps logged_only (count_claims net items Ptemp Ttemp).
Proof.
  revert Ptemp Ttemp. induction items as [|item rest IH]; intros Ptemp Ttemp.
  - by intros self.
  - simpl.
    apply keeps_bind; [apply _|apply keeps_getitem_logged|intros Pind].
    apply keeps_bind; [apply _|apply keeps_getitem_logged|intros Tind].
    apply keeps_bind; [apply _|apply keeps_lift, _|intros P1].
    apply keeps_bind; [apply _|apply keeps_lift, _|intros T1].
    apply IH.
Qed.

(** X2.  Whenever [check_physics_health] returns, the report holds its
    four keys in the order of their assignment; each of the four lists
    is strictly ascending and names only pores (throats) of the
    network; no pore and no throat is reported both as overlapping and
    as undefined; and of the phase only the log can differ. *)
Theorem check_physics_health_report (net : network) (self self' : phase)
    (health : list (string * list nat)) :
  check_physics_health net self = (Returned health, self') →
  ∃ op up ot ut,
    health = [("overlapping_pores", op); ("undefined_pores", up);
              ("overlapping_throats", ot); ("undefined_throats", ut)]
    ∧ StronglySorted lt op ∧ StronglySorted lt up
    ∧ StronglySorted lt ot ∧ StronglySorted lt ut
    ∧ (∀ i, i ∈ op ∨ i ∈ up → i < Np net)
    ∧ (∀ i, i ∈ ot ∨ i ∈ ut → i < Nt net)
    ∧ (∀ i, i ∈ op → i ∉ up)
    ∧ (∀ i, i ∈ ot → i ∉ ut)
    ∧ logged_only self self'.
Proof.
  unfold check_physics_health. unfold bind at 1. simpl. unfold bind.
  pose proof (keeps_count_claims net (physics_names self)
                (replicate (Np net) f0) (replicate (Nt net) f0) self) as Hkeeps.
  destruct (count_claims net (physics_names self) _ _ self)
    as [[[P' T']|?] self1] eqn:Hrun; [|done].
  simpl. intros [= <- <-].
  destruct (count_claims_length _ _ _ _ _ _ _ _ Hrun) as [LP LT].
  rewrite length_replicate in LP, LT.
  eexists _, _, _, _. split; [reflexivity|].
  split_and!; try apply where_sorted.
  - intros i [Hi|Hi]; apply elem_of_where in Hi as (x & Hx & _);
      rewrite <- LP; by eapply lookup_lt_Some.
  - intros i [Hi|Hi]; apply elem_of_where in Hi as (x & Hx & _);
      rewrite <- LT; by eapply lookup_lt_Some.
  - intros i (x & Hx & Hgt)%elem_of_where (y & Hy & Heq)%elem_of_where.
    simplify_eq. by eapply overlap_excludes_undefined.
  - intros i (x & Hx & Hgt)%elem_of_where (y & Hy & Heq)%elem_of_where.
    simplify_eq. by eapply overlap_excludes_undefined.
  - exact Hkeeps.
Qed.

Lemma check_physics_health_report_witness :
  ∃ health,
    check_physics_health Examples.net5 Examples.two_regions
    = (Returned health, Examples.two_regions)
    ∧ Core.dict_get health "overlapping_throats" = Some []
    ∧ Core.dict_get health "undefined_throats" = Some [2]
    ∧ logged_only Examples.two_regions Examples.two_regions.
Proof.
  destruct (check_physics_health_report Examples.net5 Examples.two_regions
              Examples.two_regions
              [("overlapping_pores", [2]); ("undefined_pores", []);
               ("overlapping_throats", []); ("undefined_throats", [2])])
    as (op & up & ot & ut & Hhealth & _ & _ & _ & _ & _ & _ & _ & _ & Hlog);
    [reflexivity|].
  eexists. split_and!; [reflexivity | reflexivity | reflexivity | exact Hlog].
Defined.

Lemma add_fraction_logged (net : network) (comp : phase) (mole_sum : list float) :
  logged_only comp (add_fraction net comp mole_sum).1.
Proof.
  unfold add_fraction.
  pose proof (keeps_getitem_logged net "pore.mole_fraction" comp) as H.
  destruct (__getitem__ net "pore.mole_fraction" comp) as [[a|e] comp']; [|done].
  destruct (addend a) as [y|]; [|done].
  by destruct (elementwise fadd mole_sum y).
Qed.

Lemma add_fraction_sum (net : network) (comp : phase) (mole_sum : list float) :
  (∀ a, (__getitem__ net "pore.mole_fraction" comp).1 = Returned a →
     ∃ l, a = AFloat l ∧ length l = length mole_sum) →
  length (add_fraction net comp mole_sum).2 = length mole_sum
  ∧ ∀ i x, mole_sum !! i = Some x →
      (add_fraction net comp mole_sum).2 !! i
      = Some (from_option (fadd x) x (fraction_at net comp i)).
Proof.
  intros Hshape. unfold add_fraction, fraction_at.
  destruct (__getitem__ net "pore.mole_fraction" comp) as [[a|e] comp']; simpl.
  - destruct (Hshape a eq_refl) as (l & -> & Hl). simpl.
    rewrite elementwise_same_length by done. simpl. split.
    + rewrite length_zip_with. lia.
    + intros i x Hx. rewrite lookup_zip_with, Hx. simpl.
      destruct (lookup_lt_is_Some_2 l i) as [y Hy].
      { rewrite Hl. by eapply lookup_lt_Some. }
      by rewrite Hy.
  - split; [done|]. by intros i x ->.
Qed.

Lemma sum_fractions_sum (net : network) (comps : list phase) (mole_sum : list float) :
  (∀ comp a, comp ∈ comps →
     (__getitem__ net "pore.mole_fraction" comp).1 = Returned a →
     ∃ l, a = AFloat l ∧ length l = length mole_sum) →
  Forall2 logged_only comps (sum_fractions net comps mole_sum).1
  ∧ length (sum_fractions net comps mole_sum).2 = length mole_sum
  ∧ ∀ i x, mole_sum !! i = Some x →
      (sum_fractions net comps mole_sum).2 !! i
      = Some (foldl fadd x (omap (λ comp, fraction_at net comp i) comps)).
Proof.
  revert mole_sum. induction comps as [|comp rest IH]; intros mole_sum Hshape.
  - simpl. split_and!; [constructor|done|done].
  - simpl.
    pose proof (add_fraction_logged net comp mole_sum) as Hlog.
    destruct (add_fraction_sum net comp mole_sum) as [Hlen Hval].
    { intros a. apply Hshape. by left. }
    destruct (add_fraction net comp mole_sum) as [comp' s1]. simpl in *.
    destruct (IH s1) as (Hlogs & Hlen' & Hvals).
    { intros c a Hc. rewrite Hlen. apply Hshape. by right. }
    destruct (sum_fractions net rest s1) as [rest' out]. simpl in *.
    split_and!; [by constructor|lia|].
    intros i x Hx. rewrite (Hvals i _ (Hval i x Hx)).
    by destruct (fraction_at net comp i).
Qed.

(** X3.  When every component whose read of ['pore.mole_fraction']
    succeeds gives a float array over the pores of the network,
    [check_mixture_health] returns an array over the pores whose entry
    at each pore is the sum, added up from [0.0] in the order of the
    components, of the fractions of those components; a component whose
    read raises is skipped.  The mixture keeps its name, dict, models
    and physics, and of each component only the log can differ. *)
Theorem check_mixture_health_sums (net : network) (self : phase) :
  (∀ comp a, comp ∈ _phases self →
     (__getitem__ net "pore.mole_fraction" comp).1 = Returned a →
     ∃ l, a = AFloat l ∧ length l = Np net) →
  ∃ mole_sum self',
    check_mixture_health net self = (Returned mole_sum, self')
    ∧ length mole_sum = Np net
    ∧ (∀ i, i < Np net →
         mole_sum !! i
         = Some (foldl fadd f0 (omap (λ comp, fraction_at net comp i) (_phases self))))
    ∧ name self' = name self ∧ data self' = data self
    ∧ _models self' = _models self ∧ _physics self' = _physics self
    ∧ Forall2 logged_only (_phases self) (_phases self').
Proof.
  intros Hshape. unfold check_mixture_health.
  destruct (sum_fractions_sum net (_phases self) (replicate (Np net) f0))
    as (Hlogs & Hlen & Hvals).
  { intros comp a. rewrite length_replicate. apply Hshape. }
  destruct (sum_fractions net (_phases self) _) as [comps out]. simpl in *.
  rewrite length_replicate in Hlen.
  eexists _, _. split; [reflexivity|]. simpl. split_and!; try done.
  intros i Hi. apply Hvals. by apply lookup_replicate_2.
Qed.

Lemma check_mixture_health_sums_witness :
  ∃ mole_sum self',
    check_mixture_health Examples.net3 Examples.blend = (Returned mole_sum, self')
    ∧ length mole_sum = 3
    ∧ mole_sum !! 0 = Some f1 ∧ mole_sum !! 1 = Some f1 ∧ mole_sum !! 2 = Some f1
    ∧ data self' = data Examples.blend.
Proof.
  destruct (check_mixture_health_sums Examples.net3 Examples.blend)
    as (mole_sum & self' & Hrun & Hlen & Hsum & _ & Hdata & _).
  { intros comp a Hin Hread. simpl in Hin.
    apply elem_of_cons in Hin as [->|Hin];
      [|apply elem_of_cons in Hin as [->|Hin];
        [|apply list_elem_of_singleton in Hin as ->]];
      vm_compute in Hread; simplify_eq; eexists; split; reflexivity. }
  exists mole_sum, self'.
  split_and!; [exact Hrun | exact Hlen | | | | exact Hdata].
  - rewrite (Hsum 0) by (vm_compute; lia). vm_compute. f_equal; try exact_rational.
  - rewrite (Hsum 1) by (vm_compute; lia). vm_compute. f_equal; try exact_rational.
  - rewrite (Hsum 2) by (vm_compute; lia). vm_compute. f_equal; try exact_rational.
Defined.

(** ** Membership of a mixture and writes to a phase *)


(** X5.  [self[prop] = value] keeps the invariant that no key of the
    dict of the phase is a key of one of its physics objects. *)
Theorem setitem_keeps_single_source (net : network) (prop : string)
    (value : pyvalue) (self : phase) :
  single_source self → single_source (__setitem__ net prop value self).2.
Proof.
  intros Hinv. unfold __setitem__.
  destruct (defined_in_physics prop (_physics self)) eqn:Hdef; [exact Hinv|].
  unfold Core.__setitem__.
  assert (Hins : ∀ a, single_source (set_data (<[prop := a]> (data self)) self)).
  { intros a k. simpl. destruct (decide (k = prop)) as [->|Hk]; [done|].
    rewrite lookup_insert_ne by done. apply Hinv. }
  destruct (Core._count _ _ prop); [|exact Hinv].
  destruct value as [x|b|a]; simpl; try apply Hins.
  destruct (decide _); simpl; [apply Hins|exact Hinv].
Qed.

(** X6.  For a key that no physics object defines and whose domain has
    [n] elements: writing an array of length [n] and reading the key
    back returns that array; writing a scalar and reading back returns
    the constant array of length [n]; neither logs anything nor changes
    another key; an array of any other length is refused with
    DimensionMismatch and the phase is unchanged. *)
Theorem setitem_then_getitem (net : network) (prop : string) (self : phase)
    (n : nat) :
  defined_in_physics prop (_physics self) = false →
  Core._count (Np net) (Nt net) prop = Some n →
  (∀ a, ndarray_length a = n →
     ∃ self',
       __setitem__ net prop (VArray a) self = (Returned tt, self')
       ∧ __getitem__ net prop self' = (Returned a, self')
       ∧ _log self' = _log self
       ∧ ∀ k, k ≠ prop → data self' !! k = data self !! k)
  ∧ (∀ x,
     ∃ self',
       __setitem__ net prop (VFloat x) self = (Returned tt, self')
       ∧ __getitem__ net prop self' = (Returned (AFloat (replicate n x)), self')
       ∧ _log self' = _log self
       ∧ ∀ k, k ≠ prop → data self' !! k = data self !! k)
  ∧ (∀ a, ndarray_length a ≠ n →
       __setitem__ net prop (VArray a) self = (Raised DimensionMismatch, self)).
Proof.
  intros Hdef Hcount. unfold __setitem__, Core.__setitem__.
  rewrite Hdef, Hcount. split_and!.
  - intros a Ha. rewrite decide_True by done. eexists. split; [reflexivity|].
    split_and!; [|done|].
    + apply getitem_stored. simpl. by rewrite lookup_insert_eq.
    + intros k Hk. simpl. by rewrite lookup_insert_ne.
  - intros x. eexists. split; [reflexivity|]. split_and!; [|done|].
    + apply getitem_stored. simpl. by rewrite lookup_insert_eq.
    + intros k Hk. simpl. by rewrite lookup_insert_ne.
  - intros a Ha. rewrite decide_False by done. by destruct self.
Qed.


Lemma setitem_keeps_single_source_witness :
  single_source Examples.wet
  ∧ single_source
      (__setitem__ Examples.net3 "pore.density" (VFloat f1) Examples.wet).2.
Proof.
  assert (H : single_source Examples.wet).
  { intros k [a Hk]. simpl in Hk.
    apply lookup_insert_Some in Hk as [[<- _]|[_ Hk]]; [reflexivity|].
    by rewrite lookup_empty in Hk. }
  split; [exact H|].
  exact (setitem_keeps_single_source Examples.net3 "pore.density" (VFloat f1)
           Examples.wet H).
Defined.

Lemma setitem_then_getitem_witness :
  ∃ self',
    __setitem__ Examples.net3 "pore.density" (VFloat f1) Examples.wet
    = (Returned tt, self')
    ∧ __getitem__ Examples.net3 "pore.density" self'
      = (Returned (AFloat [f1; f1; f1]), self').
Proof.
  destruct (setitem_then_getitem Examples.net3 "pore.density" Examples.wet 3)
    as (_ & Hfloat & _); [reflexivity | reflexivity |].
  destruct (Hfloat f1) as (self' & Hset & Hget & _).
  exists self'. split; [exact Hset | exact Hget].
Defined.

(** ** The series-resistors calculator, again *)

Lemma clamp1_idem (x : float) : clamp1 (clamp1 x) = clamp1 x.
Proof.
  unfold clamp1. destruct (fle x f0) eqn:E; [|by rewrite E].
  assert (H : fle floor_value f0 = false); [|by rewrite H].
  apply bool_decide_eq_false. by intros H.
Qed.

Lemma clamp1_positive (x : Qc) : ∃ c, clamp1 (Fin x) = Fin c ∧ (0 < c)%Qc.
Proof.
  unfold clamp1. destruct (fle (Fin x) f0) eqn:E.
  - eexists. split; [reflexivity|]. reflexivity.
  - exists x. split; [done|]. simpl in E.
    apply bool_decide_eq_false in E. by apply Qcnot_le_lt.
Qed.

Lemma Qcinv_le_inv (a b : Qc) : (0 < a)%Qc → (a ≤ b)%Qc → (/ b ≤ / a)%Qc.
Proof.
  intros Ha Hab.
  assert (Hb : (0 < b)%Qc) by (eapply Qclt_le_trans; eauto).
  assert (Ha0 : a ≠ 0%Qc) by (intros ->; by apply (Qclt_not_le _ _ Ha)).
  assert (Hb0 : b ≠ 0%Qc) by (intros ->; by apply (Qclt_not_le _ _ Hb)).
  apply (Qcmult_lt_0_le_reg_r _ _ (a * b)); [by apply Qcmult_pos_pos|].
  replace (/ b * (a * b))%Qc with a by (by field).
  replace (/ a * (a * b))%Qc with b by (by field).
  done.
Qed.

Lemma Qcinv_inv (a : Qc) : a ≠ 0%Qc → (/ / a)%Qc = a.
Proof. intros Ha. field. split; [done|]. intros H. by apply Ha. Qed.

(** The reciprocal of a conductance above zero is a finite resistance,
    not negative, and a conductance whose resistance is at least that
    one is at most this conductance. *)
Lemma resistance_of_positive (g : float) :
  fgt g f0 = true →
  ∃ r, fdiv f1 g = Fin r ∧ (0 ≤ r)%Qc
       ∧ ∀ S, (0 < S)%Qc → (r ≤ S)%Qc → fle (Fin (/ S)) g = true.
Proof.
  destruct g as [q| | |]; simpl; try done.
  - intros Hq%bool_decide_eq_true.
    assert (Hq0 : q ≠ 0%Qc) by (intros ->; by apply (Qclt_not_le _ _ Hq)).
    rewrite decide_False by done. exists (/ q)%Qc. split_and!.
    + f_equal. unfold Qcdiv. ring.
    + apply Qclt_le_weak. by apply Qcinv_pos.
    + intros S HS Hle. apply bool_decide_eq_true.
      rewrite <- (Qcinv_inv q Hq0).
      apply Qcinv_le_inv; [by apply Qcinv_pos|done].
  - intros _. exists 0%Qc. split_and!; [done|done|done].
Qed.

Lemma series_bounded (ge : Qc) (ga gb : float) :
  (0 < ge)%Qc → fgt ga f0 = true → fgt gb f0 = true →
  ∃ v, series (Fin ge) ga gb = Fin v ∧ (0 < v)%Qc
       ∧ fle (Fin v) (Fin ge) = true
       ∧ fle (Fin v) ga = true ∧ fle (Fin v) gb = true.
Proof.
  intros Hge Ha Hb.
  destruct (resistance_of_positive (Fin ge)) as (re & Ere & Hre & Bge).
  { by apply bool_decide_eq_true. }
  destruct (resistance_of_positive ga Ha) as (ra & Era & Hra & Bga).
  destruct (resistance_of_positive gb Hb) as (rb & Erb & Hrb & Bgb).
  assert (Hre' : (0 < re)%Qc).
  { simpl in Ere.
    assert (Hge0 : ge ≠ 0%Qc) by (intros ->; by apply (Qclt_not_le _ _ Hge)).
    rewrite decide_False in Ere by done. apply fin_inj in Ere. subst re.
    unfold Qcdiv. rewrite Qcmult_1_l. by apply Qcinv_pos. }
  set (S := (re + ra + rb)%Qc).
  assert (HS1 : (re ≤ S)%Qc).
  { unfold S. rewrite <- (Qcplus_0_r re) at 1. rewrite <- Qcplus_assoc.
    apply Qcplus_le_compat; [apply Qcle_refl|].
    by apply Qcplus_nonneg_nonneg. }
  assert (HS : (0 < S)%Qc) by (eapply Qclt_le_trans; eauto).
  assert (HS0 : S ≠ 0%Qc) by (intros E; rewrite E in HS; by apply (Qclt_not_le _ _ HS)).
  assert (HSa : (ra ≤ S)%Qc).
  { unfold S. rewrite <- (Qcplus_0_l ra) at 1. rewrite <- (Qcplus_0_r (0 + ra)).
    apply Qcplus_le_compat; [|done].
    apply Qcplus_le_compat; [by apply Qclt_le_weak|apply Qcle_refl]. }
  assert (HSb : (rb ≤ S)%Qc).
  { unfold S. rewrite <- (Qcplus_0_l rb) at 1.
    apply Qcplus_le_compat; [|apply Qcle_refl].
    apply Qcplus_nonneg_nonneg; [by apply Qclt_le_weak|done]. }
  exists (/ S)%Qc. split_and!.
  - unfold series, finv. rewrite Ere, Era, Erb. simpl.
    rewrite decide_False by done. f_equal. unfold S, Qcdiv. ring.
  - by apply Qcinv_pos.
  - by apply Bge.
  - by apply Bga.
  - by apply Bgb.
Qed.

Section SeriesResistorsAgain.
Variable interpolate_data : list float → list float.
Variable throats : string → list nat.
Variables (physics : physics) (ph ph' : phase) (net : network).
Variables pore_conductivity pore_area pore_diameter throat_area throat_length : string.
Variables (Ps : list (nat * nat)) (sigmap parea pdia tarea tlen : list float).

Let sigmat := interpolate_data sigmap.
Let Ts := throats (phys_name physics).

Hypothesis Hconns : net_data net !! "throat.conns" = Some (AConns Ps).
Hypothesis Hsigma :
    GenericPhase.__getitem__ net pore_conductivity ph = (Returned (AFloat sigmap), ph').
Hypothesis Hstored : data ph !! pore_conductivity = Some (AFloat sigmap).
Hypothesis Hsigmat : length sigmat = length Ps.
Hypothesis Hparea : net_data net !! pore_area = Some (AFloat parea).
Hypothesis Hpdia : net_data net !! pore_diameter = Some (AFloat pdia).
Hypothesis Htarea : net_data net !! throat_area = Some (AFloat tarea).
Hypothesis Htlen : net_data net !! throat_length = Some (AFloat tlen).
Hypothesis Hkeys : throat_area ≠ throat_length.
Hypothesis Hkey_conns : throat_length ≠ "throat.conns".
Hypothesis Hkey_parea : throat_length ≠ pore_area.
Hypothesis Hkey_pdia : throat_length ≠ pore_diameter.
Hypothesis Hnp : length parea = length pdia.
Hypothesis HPs : Forall (λ ab, ab.1 < length pdia ∧ ab.2 < length pdia) Ps.
Hypothesis Hntarea : length tarea = length Ps.
Hypothesis Hntlen : length tlen = length Ps.
Hypothesis HTs : Forall (λ t, t < length Ps) Ts.

(** X7.  For every edge the calculator returns whose conductivity and
    cross-section are finite and above zero and whose length is finite,
    the conductance is finite, above zero, and not larger than any of
    the three conductances in series: that of the edge body and those
    of the halves of the two end nodes. *)
Theorem series_resistors_bounded :
  ∃ value,
    (series_resistors interpolate_data throats physics pore_conductivity
       pore_area pore_diameter throat_area throat_length (ph, net)).1
    = Returned value
    ∧ ∀ k t sg ta tl,
        Ts !! k = Some t →
        sigmat !! t = Some (Fin sg) → tarea !! t = Some (Fin ta) →
        tlen !! t = Some (Fin tl) →
        (0 < sg)%Qc → (0 < ta)%Qc →
        ∃ a b aa da ab db v,
          Ps !! t = Some (a, b) ∧
          parea !! a = Some aa ∧ pdia !! a = Some da ∧
          parea !! b = Some ab ∧ pdia !! b = Some db ∧
          value !! k = Some (Fin v) ∧ (0 < v)%Qc ∧
          fle (Fin v) (g_edge (Fin sg) (Fin ta) (Fin tl)) = true ∧
          fle (Fin v) (g_node (Fin sg) aa da) = true ∧
          fle (Fin v) (g_node (Fin sg) ab db) = true.
Proof.
  destruct (series_resistors_edges interpolate_data throats physics ph ph' net
              pore_conductivity pore_area pore_diameter throat_area throat_length
              Ps sigmap parea pdia tarea tlen)
    as (value & Hrun & Hlen & Hedge); try done.
  exists value. split; [by rewrite Hrun|].
  intros k t sg ta tl Hk Hsg Hta Htl Hsg0 Hta0.
  destruct (Hedge k t Hk)
    as (a & b & sg' & ta' & tl' & aa & da & ab & db
        & HPt & Hsg' & Hta' & Htl' & Haa & Hda & Hab & Hdb & Hv).
  fold sigmat in Hsg'. simplify_eq.
  destruct (clamp1_positive tl) as (c & Ec & Hc).
  assert (Hc0 : c ≠ 0%Qc) by (intros E; rewrite E in Hc; by apply (Qclt_not_le _ _ Hc)).
  assert (Ege : g_edge (Fin sg) (Fin ta) (Fin tl) = Fin (sg * ta / c)).
  { unfold g_edge. rewrite Ec. simpl. by rewrite decide_False. }
  destruct (series_bounded (sg * ta / c) (g_node (Fin sg) aa da)
              (g_node (Fin sg) ab db))
    as (v & Ev & Hv0 & Hve & Hva & Hvb).
  { unfold Qcdiv. apply Qcmult_pos_pos; [by apply Qcmult_pos_pos|by apply Qcinv_pos]. }
  { apply to_inf1_positive. }
  { apply to_inf1_positive. }
  exists a, b, aa, da, ab, db, v. rewrite Hv, Ege, Ev. split_and!; done.
Qed.

(** X8.  With the conductivity stored on the phase and the
    throat-length key different from the other keys read on the
    network, a second call on the state that the first one left
    returns the same values and changes nothing: the only write is the
    replacement of the non-positive lengths, which a second replacement
    does not alter. *)
Theorem series_resistors_twice :
  ∃ value st,
    series_resistors interpolate_data throats physics pore_conductivity
      pore_area pore_diameter throat_area throat_length (ph, net)
    = (Returned value, st)
    ∧ series_resistors interpolate_data throats physics pore_conductivity
        pore_area pore_diameter throat_area throat_length st
      = (Returned value, st)
    ∧ st.1 = ph
    ∧ net_data st.2 = <[throat_length := AFloat (clamp tlen)]> (net_data net).
Proof.
  set (net1 := Network (<[throat_length := AFloat (clamp tlen)]> (net_data net))
                 (net_phases net)).
  destruct (series_resistors_edges interpolate_data throats physics ph ph net
              pore_conductivity pore_area pore_diameter throat_area throat_length
              Ps sigmap parea pdia tarea tlen)
    as (v1 & Hrun1 & Hlen1 & Hedge1); try done.
  { by apply getitem_stored. }
  destruct (series_resistors_edges interpolate_data throats physics ph ph net1
              pore_conductivity pore_area pore_diameter throat_area throat_length
              Ps sigmap parea pdia tarea (clamp tlen))
    as (v2 & Hrun2 & Hlen2 & Hedge2); try done.
  { simpl. by rewrite lookup_insert_ne. }
  { by apply getitem_stored. }
  { simpl. by rewrite lookup_insert_ne. }
  { simpl. by rewrite lookup_insert_ne. }
  { simpl. by rewrite lookup_insert_ne. }
  { simpl. by rewrite lookup_insert_eq. }
  { unfold clamp. by rewrite length_map. }
  assert (Hsame : v2 = v1).
  { apply list_eq. intros k.
    destruct (Ts !! k) as [t|] eqn:Hk.
    - destruct (Hedge1 k t Hk)
        as (a & b & sg & ta & tl & aa & da & ab & db
            & HPt & Hsg & Hta & Htl & Haa & Hda & Hab & Hdb & Hv).
      destruct (Hedge2 k t Hk)
        as (a' & b' & sg' & ta' & tl' & aa' & da' & ab' & db'
            & HPt' & Hsg' & Hta' & Htl' & Haa' & Hda' & Hab' & Hdb' & Hv').
      unfold clamp in Htl'. rewrite list_lookup_fmap, Htl in Htl'.
      simpl in Htl'. simplify_eq.
      rewrite Hv, Hv'. unfold g_edge. by rewrite clamp1_idem.
    - apply lookup_ge_None in Hk. unfold Ts in Hk.
      rewrite !(proj2 (lookup_ge_None _ _)); [done|lia..]. }
  subst v2. exists v1, (ph, net1). split_and!; [done| |done|done].
  rewrite Hrun2. do 2 f_equal. unfold net1. simpl. f_equal.
  rewrite insert_insert_eq. do 2 f_equal. unfold clamp.
  rewrite <- list_fmap_compose. apply list_fmap_ext. intros i x _. simpl.
  apply clamp1_idem.
Qed.

End SeriesResistorsAgain.

Lemma series_resistors_bounded_witness :
  ∃ value v,
    (series_resistors Examples.ones Examples.both Examples.phys1
       "pore.electrical_conductivity" "pore.area" "pore.diameter"
       "throat.area" "throat.length" (Examples.conducting, Examples.net3)).1
    = Returned value
    ∧ value !! 1 = Some (Fin v) ∧ (0 < v)%Qc
    ∧ fle (Fin v) (Examples.q 1 3) = true.
Proof.
  destruct (series_resistors_bounded Examples.ones Examples.both
              Examples.phys1 Examples.conducting Examples.conducting Examples.net3
              "pore.electrical_conductivity" "pore.area" "pore.diameter"
              "throat.area" "throat.length"
              [(0, 1); (1, 2)]
              [Examples.q 1 1; Examples.q 1 1; Examples.q 1 1]
              [Examples.q 1 1; Examples.q 2 1; Examples.q 0 1]
              [Examples.q 1 1; Examples.q 0 1; Examples.q (-1) 1]
              [Examples.q 1 1; Examples.q 1 1]
              [Examples.q 0 1; Examples.q 3 1])
    as (value & Hrun & Hedge); try example_inputs.
  destruct (Hedge 1 1 (Q2Qc 1) (Q2Qc 1) (Q2Qc 3))
    as (a & b & aa & da & ab & db & v & _ & _ & _ & _ & _ & Hv & Hpos & Hle & _);
    try reflexivity.
  exists value, v. split_and!; [exact Hrun | exact Hv | exact Hpos |].
  replace (Examples.q 1 3)
    with (g_edge (Fin (Q2Qc 1)) (Fin (Q2Qc 1)) (Fin (Q2Qc 3))); [exact Hle|].
  vm_compute. exact_rational.
Defined.

Lemma series_resistors_twice_witness :
  ∃ value st,
    series_resistors Examples.ones Examples.both Examples.phys1
      "pore.electrical_conductivity" "pore.area" "pore.diameter"
      "throat.area" "throat.length" (Examples.conducting, Examples.net3)
    = (Returned value, st)
    ∧ series_resistors Examples.ones Examples.both Examples.phys1
        "pore.electrical_conductivity" "pore.area" "pore.diameter"
        "throat.area" "throat.length" st
      = (Returned value, st).
Proof.
  destruct (series_resistors_twice Examples.ones Examples.both
              Examples.phys1 Examples.conducting Examples.net3
              "pore.electrical_conductivity" "pore.area" "pore.diameter"
              "throat.area" "throat.length"
              [(0, 1); (1, 2)]
              [Examples.q 1 1; Examples.q 1 1; Examples.q 1 1]
              [Examples.q 1 1; Examples.q 2 1; Examples.q 0 1]
              [Examples.q 1 1; Examples.q 0 1; Examples.q (-1) 1]
              [Examples.q 1 1; Examples.q 1 1]
              [Examples.q 0 1; Examples.q 3 1])
    as (value & st & Hrun1 & Hrun2 & _); try example_inputs.
  exists value, st. split; [exact Hrun1 | exact Hrun2].
Defined.

Global Instance no_new_entries_refl : Reflexive no_new_entries.
Proof. by intros s. Qed.

Global Instance no_new_entries_trans : Transitive no_new_entries.
Proof.
  intros s1 s2 s3 (?&?&?) (?&?&?). split_and!; by etrans.
Qed.

Lemma entries_net_getitem (key : string) :
  keeps no_new_entries (on_net (net_getitem key)).
Proof.
  intros [self net]. unfold on_net, net_getitem, Core.__getitem__.
  by destruct (net_data net !! key).
Qed.

Lemma entries_net_floats (key : string) : keeps no_new_entries (net_floats key).
Proof.
  apply keeps_bind; [apply _|apply entries_net_getitem|].
  intros a. apply keeps_lift, _.
Qed.

Lemma entries_phase_getitem (key : string) :
  keeps no_new_entries (phase_getitem key).
Proof.
  intros [self net]. unfold phase_getitem, on_self.
  pose proof (keeps_getitem_logged net key self) as H.
  by destruct (__getitem__ net key self).
Qed.

(** Reading an array of the network and assigning into it creates no
    key: the assignment is reached only when the read found one. *)
Lemma entries_read_then_assign {A} (key : string)
    (f : list float → list float) (k : list float → M (phase * network) A) :
  (∀ l, keeps no_new_entries (k l)) →
  keeps no_new_entries
    (do l <- net_floats key; do _ <- net_assign_in_place key (f l); k l).
Proof.
  intros Hk [self net]. unfold bind at 1.
  destruct (net_data net !! key) as [a|] eqn:Hkey; last first.
  { unfold net_floats, bind, on_net, net_getitem, Core.__getitem__.
    by rewrite Hkey. }
  destruct a as [l|l|l];
    try (unfold net_floats, bind, on_net, net_getitem, Core.__getitem__;
         by rewrite Hkey).
  rewrite (net_floats_lookup _ _ _ _ Hkey).
  unfold bind, net_assign_in_place, on_net. simpl.
  etrans; [|apply Hk]. split_and!; try done. simpl.
  by apply dom_insert_lookup_L.
Qed.

(** X9.  Whatever its inputs, and whether it returns or raises, the
    calculator leaves the name, the dict, the models, the components
    and the physics of the phase as they were, leaves the list of
    registered phases of the network as it was, and creates no key on
    the network. *)
Theorem series_resistors_creates_nothing
    (interpolate_data : list float → list float) (throats : string → list nat)
    (physics : physics) (ph : phase) (net : network)
    (pore_conductivity pore_area pore_diameter throat_area throat_length : string) :
  logged_only ph
    (series_resistors interpolate_data throats physics pore_conductivity
       pore_area pore_diameter throat_area throat_length (ph, net)).2.1
  ∧ net_phases
      (series_resistors interpolate_data throats physics pore_conductivity
         pore_area pore_diameter throat_area throat_length (ph, net)).2.2
    = net_phases net
  ∧ dom (net_data
      (series_resistors interpolate_data throats physics pore_conductivity
         pore_area pore_diameter throat_area throat_length (ph, net)).2.2)
    = dom (net_data net).
Proof.
  assert (H : keeps no_new_entries
                (series_resistors interpolate_data throats physics
                   pore_conductivity pore_area pore_diameter throat_area
                   throat_length)); [|exact (H (ph, net))].
  unfold series_resistors.
  apply keeps_bind; [apply _|apply entries_net_getitem|intros conns].
  apply keeps_bind; [apply _|apply keeps_lift, _|intros Ps].
  apply keeps_bind; [apply _|apply entries_phase_getitem|intros sigmap_].
  apply keeps_bind; [apply _|apply keeps_lift, _|intros sigmap].
  cbv zeta.
  apply keeps_bind; [apply _|apply entries_net_floats|intros parea].
  apply keeps_bind; [apply _|apply entries_net_floats|intros pdia].
  repeat (cbv zeta; apply keeps_bind; [apply _|apply keeps_lift, _|intros ?]).
  apply keeps_bind; [apply _|apply entries_net_floats|intros tarea].
  apply (entries_read_then_assign throat_length clamp). intros tlen. cbv zeta.
  repeat (apply keeps_bind; [apply _|apply keeps_lift, _|intros ?]).
  apply keeps_lift, _.
Qed.

(** ** The constructor on a network without masks *)

Lemma on_net_getitem_missing (key : string) (ph : phase) (net : network) :
  net_data net !! key = None →
  on_net (net_getitem key) (ph, net) = (Raised NotFound, (ph, net)).
Proof.
  intros H. unfold on_net, net_getitem, Core.__getitem__. rewrite H.
  by destruct net.
Qed.

Lemma bind_raised {S A B} (m : M S A) (k : A → M S B) s e s' :
  m s = (Raised e, s') → bind m k s = (Raised e, s').
Proof. intros H. unfold bind. by rewrite H. Qed.

(** X10.  On a network that lacks ['pore.all'] or ['throat.all'] the
    constructor raises NotFound, and the network is as it was: no
    label is written and no phase is registered. *)
Theorem new_needs_the_masks (net : network) (components : list phase) (n : string) :
  net_data net !! "pore.all" = None ∨ net_data net !! "throat.all" = None →
  new net components n = (Raised NotFound, net).
Proof.
  intros Hmiss. unfold new, __init__.
  rewrite (bind_returned _ _ _ _ _ (on_self_pure _ _ _)).
  rewrite (bind_returned _ _ _ _ _ (on_self_pure _ _ _)).
  destruct (net_data net !! "pore.all") as [pall|] eqn:Hp; last first.
  { by rewrite (bind_raised _ _ _ _ _ (on_net_getitem_missing _ _ _ Hp)). }
  destruct Hmiss as [?|Ht]; [done|].
  pose proof (count_pore_all _ _ Hp) as HNp.
  rewrite (bind_returned _ _ _ _ _ (on_net_getitem _ _ _ _ Hp)).
  erewrite bind_returned; last first.
  { apply self_setitem_array; [done|]. unfold Core._count. simpl. by rewrite HNp. }
  by rewrite (bind_raised _ _ _ _ _ (on_net_getitem_missing _ _ _ Ht)).
Qed.

Lemma new_needs_the_masks_witness :
  new (Network ∅ []) [] "air" = (Raised NotFound, Network ∅ []).
Proof.
  apply (new_needs_the_masks (Network ∅ []) [] "air"). left. reflexivity.
Defined.

(** ** Mixtures: the number and the names of the components *)

Section MixtureComponents.
Variable fpow : float → float → float.
Variable target : store.
Variables mole_fraction molecular_weight molar_diffusion_volume : string.
Variables temperature pressure : string.

(** X11.  [fuller_diffusivity] raises ValueError, before it reads any
    property, unless the mixture has exactly two components. *)
Theorem fuller_diffusivity_needs_two (components : list (string * species)) :
  length components ≠ 2 →
  fuller_diffusivity fpow target components molecular_weight
    molar_diffusion_volume temperature pressure
  = Raised ValueError.
Proof.
  intros Hlen. unfold fuller_diffusivity.
  destruct components as [|a [|b [|c l]]]; simpl in *; try done.
Qed.

Lemma for_each_keeps {S} (I : S → Prop) (l : list nat) (body : nat → M S unit) :
  (∀ y s, I s → I (body y s).2) → ∀ s, I s → I (for_each l body s).2.
Proof.
  intros Hbody. induction l as [|x l IH]; intros s Hs; simpl; [done|].
  unfold bind. specialize (Hbody x s Hs).
  destruct (body x s) as [[[]|e] s']; simpl in *; [by apply IH|done].
Qed.

Lemma for_each_raises {S} (I : S → Prop) (l : list nat) (body : nat → M S unit)
    (x : nat) :
  x ∈ l →
  (∀ y s, I s → I (body y s).2) →
  (∀ s, I s → ∃ e, (body x s).1 = Raised e) →
  ∀ s, I s → ∃ e, (for_each l body s).1 = Raised e.
Proof.
  intros Hx Hbody Hraise. induction l as [|y l IH]; intros s Hs.
  - by apply elem_of_nil in Hx.
  - simpl. unfold bind.
    pose proof (Hbody y s Hs) as Hs'.
    destruct (body y s) as [[[]|e] s'] eqn:Hy; simpl in *; [|by exists e].
    apply elem_of_cons in Hx as [->|Hx].
    + destruct (Hraise s Hs) as [e He]. by rewrite Hy in He.
    + by apply IH.
Qed.

Lemma setitem_at_names (i : nat) (key : string) (D : list float)
    (comps : list species) :
  sp_name <$> setitem_at i key D comps = sp_name <$> comps.
Proof.
  unfold setitem_at. destruct (comps !! i) as [A|] eqn:HA; [|done].
  rewrite list_fmap_insert. simpl. apply list_insert_id.
  by rewrite list_lookup_fmap, HA.
Qed.

Lemma pair_body_names (i j : nat) (comps : list species) :
  sp_name <$> (pair_body fpow target molecular_weight molar_diffusion_volume
                 temperature pressure i j comps).2
  = sp_name <$> comps.
Proof.
  unfold pair_body. destruct (decide (i < j)); [|done].
  destruct (comps !! i) as [A|]; [|done].
  destruct (comps !! j) as [B|]; [|done].
  destruct (fuller_diffusivity _ _ _ _ _ _ _) as [D|e]; [|done].
  simpl. by rewrite !setitem_at_names.
Qed.

(** X12.  When two components of the mixture have the same name,
    [wilke_fuller_diffusivity] raises: the dict built for that pair has
    one entry, which [fuller_diffusivity] cannot unpack into two
    species.  The components keep their names and their order. *)
Theorem wilke_needs_distinct_names (comps0 : list species) (i j : nat)
    (A B : species) :
  i < j → comps0 !! i = Some A → comps0 !! j = Some B →
  sp_name A = sp_name B →
  ∃ e comps,
    wilke_fuller_diffusivity fpow target mole_fraction molecular_weight
      molar_diffusion_volume temperature pressure comps0
    = (Raised e, comps)
    ∧ sp_name <$> comps = sp_name <$> comps0.
Proof.
  intros Hij HA HB Hname.
  set (I := λ comps : list species, sp_name <$> comps = sp_name <$> comps0).
  set (inner := λ i : nat,
         for_each (seq 0 (length comps0)) (λ j : nat,
           pair_body fpow target molecular_weight molar_diffusion_volume
             temperature pressure i j)).
  assert (Hpair : ∀ i j s, I s →
            I (pair_body fpow target molecular_weight molar_diffusion_volume
                 temperature pressure i j s).2).
  { intros i' j' s Hs. unfold I. by rewrite pair_body_names. }
  assert (Hinner : ∀ i s, I s → I (inner i s).2).
  { intros i' s Hs. apply (for_each_keeps I); [|done]. intros y s'. apply Hpair. }
  assert (Hi : i < length comps0) by (by eapply lookup_lt_Some).
  assert (Hj : j < length comps0) by (by eapply lookup_lt_Some).
  assert (Hraise : ∀ s, I s → ∃ e, (inner i s).1 = Raised e).
  { intros s Hs. apply (for_each_raises I _ _ j); [|by intros; apply Hpair| |done].
    { apply elem_of_seq. lia. }
    intros s' Hs'. unfold pair_body. rewrite decide_True by done.
    assert (Hn : ∀ k C, comps0 !! k = Some C →
              ∃ C', s' !! k = Some C' ∧ sp_name C' = sp_name C).
    { intros k C HC.
      assert (E : (sp_name <$> s') !! k = Some (sp_name C))
        by (by rewrite Hs', list_lookup_fmap, HC).
      rewrite list_lookup_fmap in E.
      destruct (s' !! k) as [C'|]; [|done]. exists C'. by simplify_eq/=. }
    destruct (Hn i A HA) as (A' & -> & HA').
    destruct (Hn j B HB) as (B' & -> & HB').
    simpl. rewrite decide_True by congruence.
    exists ValueError. reflexivity. }
  destruct (for_each_raises I (seq 0 (length comps0)) inner i) with (s := comps0)
    as [e He]; [apply elem_of_seq; lia|done|done|done|].
  pose proof (for_each_keeps I (seq 0 (length comps0)) inner Hinner comps0 eq_refl)
    as Hnames.
  unfold wilke_fuller_diffusivity, bind, get_state. fold inner.
  destruct (for_each (seq 0 (length comps0)) inner comps0) as [[[]|e'] comps] eqn:Hrun;
    simpl in *; [done|].
  by exists e', comps.
Qed.

End MixtureComponents.

(** ** The mole-weighted average *)

Lemma fold_fractions_stuck (X : Type) (f : X → float) (items : list X) (a : float) :
  (∀ q, a ≠ Fin q) → ∀ q, foldl (λ acc i, fadd acc (f i)) a items ≠ Fin q.
Proof.
  revert a. induction items as [|i items IH]; intros a Ha q; simpl; [done|].
  apply IH. intros q'. destruct a as [x| | |]; [by destruct (Ha x)|..];
    by destruct (f i).
Qed.

Lemma fold_constant (X : Type) (v y : X → float) (c : Qc) (items : list X)
    (x s t : Qc) :
  (∀ i, i ∈ items → v i = Fin c) →
  foldl (λ acc i, fadd acc (y i)) (Fin s) items = Fin t →
  foldl (λ acc i, fadd acc (fmul (v i) (y i))) (Fin x) items
  = Fin (x + c * (t - s)).
Proof.
  revert x s. induction items as [|i items IH]; intros x s Hv Hsum; simpl in *.
  - apply fin_inj in Hsum. subst t. f_equal. ring.
  - rewrite (Hv i) by by left.
    destruct (y i) as [q| | |] eqn:Hy; simpl in *.
    + rewrite (IH _ (s + q)%Qc); [f_equal; ring| |done].
      intros i' Hi'. apply Hv. by right.
    + exfalso. by apply (fold_fractions_stuck X y items PInf) in Hsum.
    + exfalso. by apply (fold_fractions_stuck X y items NInf) in Hsum.
    + exfalso. by apply (fold_fractions_stuck X y items NaN) in Hsum.
Qed.

Section MoleWeightedAverage.
Variable _count : string → outcome nat.
Variable project : string → outcome species.
Variables (target : store) (components : list (string * species)) (prop : string).
Variable N : nat.

Let element := before_dot prop.
Let fraction (item : string) (n : nat) : float :=
  at_pore target (element +:+ ".mole_fraction." +:+ item) n.

Hypothesis Hcount : _count element = Returned N.
Hypothesis Hshape : ∀ item, item ∈ components.*1 →
    ∃ frac obj temp,
      target !! (element +:+ ".mole_fraction." +:+ item) = Some (AFloat frac)
      ∧ length frac = N
      ∧ project item = Returned obj
      ∧ sp_data obj !! prop = Some (AFloat temp)
      ∧ length temp = N.

Lemma weighted_sum_values (items : list string) (vals : list float) :
  (∀ item, item ∈ items → item ∈ components.*1) →
  length vals = N →
  ∃ out,
    weighted_sum project target element prop items vals = Returned out
    ∧ length out = N
    ∧ ∀ n x, vals !! n = Some x →
        out !! n
        = Some (foldl (λ acc item,
                         fadd acc (fmul (value_of project prop item n)
                                        (fraction item n))) x items).
Proof.
  revert vals. induction items as [|item rest IH]; intros vals Hin Hlen; simpl.
  - by exists vals.
  - destruct (Hshape item) as (frac & obj & temp & Hfrac & Lfrac & Hobj & Htemp & Ltemp).
    { apply Hin. by left. }
    unfold getitem. rewrite Hfrac, Hobj. simpl. rewrite Htemp. simpl.
    rewrite elementwise_same_length by lia. simpl.
    unfold iadd. rewrite decide_True by (rewrite length_zip_with; lia). simpl.
    destruct (IH (zip_with fadd vals (zip_with fmul temp frac)))
      as (out & Hrun & Lout & Hout).
    { intros i Hi. apply Hin. by right. }
    { rewrite !length_zip_with. lia. }
    exists out. split_and!; [done|done|].
    intros n x Hx. apply Hout.
    rewrite !lookup_zip_with, Hx. simpl.
    destruct (lookup_lt_is_Some_2 temp n) as [tv Htv].
    { rewrite Ltemp, <- Hlen. by eapply lookup_lt_Some. }
    destruct (lookup_lt_is_Some_2 frac n) as [fv Hfv].
    { rewrite Lfrac, <- Hlen. by eapply lookup_lt_Some. }
    rewrite Htv, Hfv. simpl. unfold value_of, fraction, at_pore.
    by rewrite Hobj, Htemp, Hfrac, Htv, Hfv.
Qed.

(** X13.  When every component has a mole-fraction array on the mixture
    and the property [prop] on its own object, all over the [N]
    elements of the domain of [prop], [mole_weighted_average] returns an
    array over those elements whose entry at each element is the sum,
    added up from [0.0] in the order of the components, of the value
    of the component times its fraction.  Where the property has the
    same finite value on every component and the fractions add up to
    one, the average is that value (in exact arithmetic). *)
Theorem mole_weighted_average_values :
  ∃ vals,
    mole_weighted_average _count project target components prop = Returned vals
    ∧ length vals = N
    ∧ (∀ n, n < N →
         vals !! n
         = Some (foldl (λ acc item,
                          fadd acc (fmul (value_of project prop item n)
                                         (fraction item n))) f0 components.*1))
    ∧ (∀ n c, n < N →
         (∀ item, item ∈ components.*1 → value_of project prop item n = Fin c) →
         foldl (λ acc item, fadd acc (fraction item n)) f0 components.*1 = f1 →
         vals !! n = Some (Fin c)).
Proof.
  destruct (weighted_sum_values components.*1 (replicate N f0))
    as (vals & Hrun & Hlen & Hvals); [done|by rewrite length_replicate|].
  exists vals.
  assert (Hformula : ∀ n, n < N →
            vals !! n
            = Some (foldl (λ acc item,
                             fadd acc (fmul (value_of project prop item n)
                                            (fraction item n))) f0 components.*1)).
  { intros n Hn. apply Hvals. by apply lookup_replicate_2. }
  split_and!; [|done|done|].
  - unfold mole_weighted_average. fold element. rewrite Hcount. simpl. exact Hrun.
  - intros n c Hn Hconst Hone. rewrite (Hformula n Hn). f_equal.
    unfold f0. rewrite (fold_constant _ _ _ c _ 0%Qc 0%Qc 1%Qc Hconst Hone).
    f_equal. ring.
Qed.

Lemma weighted_sum_missing (item : string) (obj : species) (items : list string)
    (vals : list float) :
  item ∈ items →
  project item = Returned obj →
  sp_data obj !! prop = None →
  ∃ e, weighted_sum project target element prop items vals = Raised e.
Proof.
  intros Hin Hobj Hnone. revert vals.
  induction items as [|i rest IH]; intros vals; simpl.
  - by apply elem_of_nil in Hin.
  - destruct (getitem target _) as [frac|e]; simpl; [|by exists e].
    destruct (decide (i = item)) as [->|Hne].
    + rewrite Hobj. simpl. unfold getitem at 1. rewrite Hnone. simpl.
      by exists NotFound.
    + destruct (project i) as [o|e]; simpl; [|by exists e].
      destruct (getitem (sp_data o) prop) as [temp|e]; simpl; [|by exists e].
      destruct (elementwise fmul temp frac) as [t|e]; simpl; [|by exists e].
      destruct (iadd vals t) as [vals'|e]; simpl; [|by exists e].
      apply IH. by apply elem_of_cons in Hin as [?|?].
Qed.

(** X14.  When the object of one of the components lacks the property
    [prop], [mole_weighted_average] raises. *)
Theorem mole_weighted_average_missing (item : string) (obj : species) :
  item ∈ components.*1 →
  project item = Returned obj →
  sp_data obj !! prop = None →
  ∃ e, mole_weighted_average _count project target components prop = Raised e.
Proof.
  intros Hin Hobj Hnone. unfold mole_weighted_average.
  destruct (_count (before_dot prop)) as [n|e]; simpl; [|by exists e].
  by apply (weighted_sum_missing item obj).
Qed.

End MoleWeightedAverage.

Lemma fuller_diffusivity_needs_two_witness :
  fuller_diffusivity Examples.pow_exact
    (Examples.mixture_data (Examples.q 1 4) (Examples.q 3 4))
    [("A", Examples.gas "A" (Examples.q 1 1000) (Examples.q 1 1))]
    "pore.molecular_weight" "pore.molar_diffusion_volume"
    "pore.temperature" "pore.pressure"
  = Raised ValueError.
Proof.
  apply (fuller_diffusivity_needs_two Examples.pow_exact
           (Examples.mixture_data (Examples.q 1 4) (Examples.q 3 4))
           "pore.molecular_weight" "pore.molar_diffusion_volume"
           "pore.temperature" "pore.pressure"
           [("A", Examples.gas "A" (Examples.q 1 1000) (Examples.q 1 1))]).
  simpl. lia.
Defined.

Lemma wilke_needs_distinct_names_witness :
  ∃ e comps,
    wilke_fuller_diffusivity Examples.pow_exact
      (Examples.mixture_data (Examples.q 1 4) (Examples.q 3 4))
      "pore.mole_fraction" "pore.molecular_weight" "pore.molar_diffusion_volume"
      "pore.temperature" "pore.pressure" Examples.twins
    = (Raised e, comps).
Proof.
  destruct (wilke_needs_distinct_names Examples.pow_exact
              (Examples.mixture_data (Examples.q 1 4) (Examples.q 3 4))
              "pore.mole_fraction" "pore.molecular_weight"
              "pore.molar_diffusion_volume" "pore.temperature" "pore.pressure"
              Examples.twins 0 1
              (Examples.gas "A" (Examples.q 1 1000) (Examples.q 1 1))
              (Examples.gas "A" (Examples.q 1 1000) (Examples.q 1 1)))
    as (e & comps & Hrun & _); [lia | reflexivity | reflexivity | reflexivity |].
  exists e, comps. exact Hrun.
Defined.

Lemma mole_weighted_average_values_witness :
  ∃ vals,
    mole_weighted_average Examples.one_pore Examples.by_name
      (Examples.mixture_data (Examples.q 1 4) (Examples.q 3 4))
      Examples.components_AB "pore.molecular_weight"
    = Returned vals
    ∧ vals !! 0 = Some (Examples.q 1 1000).
Proof.
  destruct (mole_weighted_average_values Examples.one_pore Examples.by_name
              (Examples.mixture_data (Examples.q 1 4) (Examples.q 3 4))
              Examples.components_AB "pore.molecular_weight" 1)
    as (vals & Hrun & _ & _ & Hconst); [reflexivity| |].
  { intros item Hin. simpl in Hin.
    apply elem_of_cons in Hin as [->|Hin];
      [|apply list_elem_of_singleton in Hin as ->];
      eexists _, _, _; split_and!; reflexivity. }
  exists vals. split; [exact Hrun|].
  apply (Hconst 0 (Q2Qc (1 # 1000))); [lia| |].
  - intros item Hin. simpl in Hin.
    apply elem_of_cons in Hin as [->|Hin];
      [|apply list_elem_of_singleton in Hin as ->]; reflexivity.
  - vm_compute. exact_rational.
Defined.

Lemma mole_weighted_average_missing_witness :
  ∃ e,
    mole_weighted_average Examples.one_pore Examples.by_name
      (Examples.mixture_data (Examples.q 1 4) (Examples.q 3 4))
      Examples.components_AB "pore.viscosity"
    = Raised e.
Proof.
  apply (mole_weighted_average_missing Examples.one_pore Examples.by_name
           (Examples.mixture_data (Examples.q 1 4) (Examples.q 3 4))
           Examples.components_AB "pore.viscosity" "B"
           (Examples.gas "B" (Examples.q 1 1000) (Examples.q 1 1))).
  - simpl. apply elem_of_cons. right. by apply list_elem_of_singleton.
  - reflexivity.
  - reflexivity.
Defined.

